(** * SystemTransport: the fare calculator of [system_transport.py]

    The program computes a fare per passenger from a distance and an
    age band, stores it on the passenger, and sums the stored fares of
    a batch.  Every number it handles apart from the age is a Python
    [float], i.e. an IEEE 754 binary64 value, so the embedding uses
    Rocq's primitive [float] (the same format, round to nearest even)
    and the properties are stated with the comparisons Python uses
    ([<=?], [<?], [=?] on floats).

    Layout:
    - [Rounding]: integer facts about round-to-nearest-even;
    - [Binary64]: what the reference implementation of binary64
      multiplication ([SFmul]) does on non-negative inputs: sign and
      monotonicity, transported to primitive floats;
    - [Transport]: the embedding of [Passenger] and
      [TransportFareCalculator];
    - [Interactive]: the validated input functions and [main], over
      a console of input lines and written text;
    - the properties of the program. *)

From Stdlib Require Import ZArith Lia Bool List String Ascii.
From Stdlib Require Import Floats Permutation.
Import ListNotations.

Set Warnings "-inexact-float".

(* ------------------------------------------------------------------ *)
(** ** Round to nearest, ties to even, on integers *)

Module Rounding.
Local Open Scope Z_scope.

(** [rne W U] is the integer nearest to the rational [W / U]
    (for [U > 0]); a tie goes to the even neighbour. *)
Definition rne (W U : Z) : Z :=
  let q := W / U in
  match 2 * (W mod U) ?= U with
  | Lt => q
  | Eq => if Z.even q then q else q + 1
  | Gt => q + 1
  end.

Lemma rne_between W U :
  0 < U -> W / U <= rne W U <= W / U + 1.
Proof.
  intros HU. unfold rne.
  destruct (2 * (W mod U) ?= U); [destruct (Z.even (W / U))| |]; lia.
Qed.

Lemma rne_exact k U : 0 < U -> rne (k * U) U = k.
Proof.
  intros HU. unfold rne.
  rewrite Z.mod_mul, Z.div_mul by lia.
  destruct (Z.compare_spec (2 * 0) U); lia.
Qed.

(** Scaling numerator and denominator together changes nothing. *)
Lemma rne_scale W U c : 0 < U -> 0 < c -> rne (W * c) (U * c) = rne W U.
Proof.
  intros HU Hc. unfold rne.
  rewrite Z.div_mul_cancel_r, Z.mul_mod_distr_r by lia.
  replace (2 * (W mod U * c)) with (2 * (W mod U) * c) by ring.
  rewrite <- (Zmult_compare_compat_r (2 * (W mod U)) U c) by lia.
  reflexivity.
Qed.

(** The rounding is monotone in the numerator. *)
Lemma rne_mono W1 W2 U : 0 < U -> W1 <= W2 -> rne W1 U <= rne W2 U.
Proof.
  intros HU HW.
  assert (Hq : W1 / U <= W2 / U) by (apply Z.div_le_mono; lia).
  destruct (Z.eq_dec (W1 / U) (W2 / U)) as [E | NE].
  - assert (Hr : W1 mod U <= W2 mod U).
    { rewrite !Z.mod_eq by lia. rewrite E. lia. }
    unfold rne. rewrite E.
    destruct (Z.compare_spec (2 * (W1 mod U)) U),
             (Z.compare_spec (2 * (W2 mod U)) U);
      try destruct (Z.even (W2 / U)); lia.
  - pose proof (rne_between W1 U HU). pose proof (rne_between W2 U HU). lia.
Qed.

Lemma rne_lt_bound W U B : 0 < U -> W < B * U -> rne W U <= B.
Proof.
  intros HU HW. pose proof (rne_between W U HU).
  assert (W / U < B) by (apply Z.div_lt_upper_bound; lia). lia.
Qed.

Lemma rne_ge_bound W U B : 0 < U -> B * U <= W -> B <= rne W U.
Proof.
  intros HU HW. pose proof (rne_between W U HU).
  assert (B <= W / U) by (apply Z.div_le_lower_bound; lia). lia.
Qed.

End Rounding.

(* ------------------------------------------------------------------ *)
(** ** Binary64 multiplication on non-negative values

    [SFmul] (with [prec = 53], [emax = 1024]) is the reference
    semantics of the primitive [*] on floats.  For two finite
    operands it multiplies the mantissas and rounds the product with
    [binary_round_aux].  This module describes that rounding by [rne]
    and derives what the program's properties need. *)

Module Binary64.
Import Rounding.
Local Open Scope Z_scope.

(** *** The right shift with round and sticky bits *)

(** [shr_inv M n mrs]: the record [mrs] is what remains of [M] after
    [n] shifts: its mantissa is [M / 2^n], the round bit tells
    whether the dropped part reaches half a unit, the sticky bit
    whether it is neither zero nor exactly half. *)
Definition shr_inv (M n : Z) (mrs : shr_record) : Prop :=
  let m := shr_m mrs in
  let rem := M - m * 2 ^ n in
  0 <= n /\ 0 <= m /\ 0 <= rem < 2 ^ n /\
  shr_r mrs = (2 ^ n <=? 2 * rem) /\
  shr_s mrs = negb (rem =? 0) && negb (2 * rem =? 2 ^ n).

Lemma shr_inv_init M : 0 <= M -> shr_inv M 0 (Build_shr_record M false false).
Proof.
  intros HM. unfold shr_inv; cbn [shr_m shr_r shr_s].
  rewrite Z.pow_0_r, Z.mul_1_r, Z.sub_diag. repeat split; lia.
Qed.

Lemma shr_inv_step M n mrs : shr_inv M n mrs -> shr_inv M (n + 1) (shr_1 mrs).
Proof.
  destruct mrs as [m r s]. unfold shr_inv; cbn [shr_m shr_r shr_s].
  intros (Hn & Hm & Hrem & Hr & Hs).
  rewrite Z.pow_add_r, Z.pow_1_r by lia.
  assert (HP : 0 < 2 ^ n) by (apply Z.pow_pos_nonneg; lia).
  set (P := 2 ^ n) in *.
  subst r s.
  destruct m as [| [p | p |] | p]; cbn [shr_1 shr_m shr_r shr_s]; try lia;
    try (pose proof (Pos2Z.inj_xI p)); try (pose proof (Pos2Z.inj_xO p));
    repeat match goal with
           | |- context [?a <=? ?b] => destruct (Z.leb_spec a b)
           | |- context [?a =? ?b] => destruct (Z.eqb_spec a b)
           end; cbn [negb andb orb]; repeat split; try reflexivity; try lia.
Qed.

Lemma shr_inv_iter p : forall M n mrs,
  shr_inv M n mrs -> shr_inv M (n + Zpos p) (iter_pos shr_1 p mrs).
Proof.
  induction p as [p IH | p IH |]; intros M n mrs H; cbn [iter_pos].
  - replace (n + Zpos p~1) with (n + 1 + Zpos p + Zpos p) by lia.
    apply IH, IH, shr_inv_step, H.
  - replace (n + Zpos p~0) with (n + Zpos p + Zpos p) by lia.
    apply IH, IH, H.
  - apply shr_inv_step, H.
Qed.

(** What the invariant says about the rounded mantissa. *)
Lemma shr_inv_rne M n mrs :
  shr_inv M n mrs ->
  round_nearest_even (shr_m mrs) (loc_of_shr_record mrs) = rne M (2 ^ n).
Proof.
  destruct mrs as [m r s]. unfold shr_inv; cbn [shr_m shr_r shr_s].
  intros (Hn & Hm & Hrem & Hr & Hs).
  assert (HP : 0 < 2 ^ n) by (apply Z.pow_pos_nonneg; lia).
  set (P := 2 ^ n) in *.
  assert (Hq : M / P = m) by (symmetry; apply (Z.div_unique M P m (M - m * P)); lia).
  assert (Hmod : M mod P = M - m * P) by (rewrite Z.mod_eq, Hq; lia).
  unfold rne. rewrite Hq, Hmod. subst r s.
  destruct (Z.compare_spec (2 * (M - m * P)) P);
    repeat match goal with
           | |- context [?a <=? ?b] => destruct (Z.leb_spec a b)
           | |- context [?a =? ?b] => destruct (Z.eqb_spec a b)
           end; cbn [negb andb loc_of_shr_record round_nearest_even]; try lia; reflexivity.
Qed.

(** Shifting an exact mantissa right by [n >= 0] and rounding. *)
Lemma shr_rne M e n :
  0 <= M -> 0 <= n ->
  let '(mrs, e') := shr (Build_shr_record M false false) e n in
  round_nearest_even (shr_m mrs) (loc_of_shr_record mrs) = rne M (2 ^ n)
  /\ e' = e + n.
Proof.
  intros HM Hn. destruct n as [| p | p]; cbn [shr]; try lia.
  - split; [| lia]. apply (shr_inv_rne M 0), shr_inv_init, HM.
  - split; [| reflexivity].
    apply (shr_inv_rne M (Zpos p)).
    apply (shr_inv_iter p M 0), shr_inv_init, HM.
Qed.

(** *** Number of binary digits *)

Lemma digits2_pos_bounds p :
  2 ^ (Zpos (digits2_pos p) - 1) <= Zpos p < 2 ^ Zpos (digits2_pos p).
Proof.
  induction p as [p IH | p IH |]; cbn [digits2_pos].
  - rewrite Pos2Z.inj_succ, (Pos2Z.inj_xI p).
    replace (Z.succ (Zpos (digits2_pos p)) - 1) with (Z.succ (Zpos (digits2_pos p) - 1)) by lia.
    rewrite !Z.pow_succ_r by lia. lia.
  - rewrite Pos2Z.inj_succ, (Pos2Z.inj_xO p).
    replace (Z.succ (Zpos (digits2_pos p)) - 1) with (Z.succ (Zpos (digits2_pos p) - 1)) by lia.
    rewrite !Z.pow_succ_r by lia. lia.
  - cbn. lia.
Qed.

Lemma Zdigits2_bounds M :
  0 < M -> 2 ^ (Zdigits2 M - 1) <= M < 2 ^ Zdigits2 M.
Proof.
  destruct M as [| p | p]; try lia. intros _. apply digits2_pos_bounds.
Qed.

Lemma Zdigits2_pos M : 0 < M -> 0 < Zdigits2 M.
Proof. destruct M; cbn; lia. Qed.

(** A number below [2^d] has at most [d] digits, one that reaches
    [2^(d-1)] has at least [d]. *)
Lemma Zdigits2_le M d : 0 < M -> M < 2 ^ d -> Zdigits2 M <= d.
Proof.
  intros HM Hlt. destruct (Z.le_gt_cases (Zdigits2 M) d) as [|Hgt]; [assumption|].
  pose proof (Zdigits2_bounds M HM) as [Hlo _].
  assert (0 <= d) by (destruct (Z.le_gt_cases 0 d); [assumption|];
                      rewrite Z.pow_neg_r in Hlt by lia; lia).
  assert (2 ^ d <= 2 ^ (Zdigits2 M - 1)) by (apply Z.pow_le_mono_r; lia).
  lia.
Qed.

Lemma Zdigits2_ge M d : 0 < M -> 2 ^ (d - 1) <= M -> d <= Zdigits2 M.
Proof.
  intros HM Hle. destruct (Z.le_gt_cases d (Zdigits2 M)) as [|Hgt]; [assumption|].
  pose proof (Zdigits2_bounds M HM) as [_ Hhi].
  pose proof (Zdigits2_pos M HM).
  assert (2 ^ Zdigits2 M <= 2 ^ (d - 1)) by (apply Z.pow_le_mono_r; lia).
  lia.
Qed.

Lemma Zdigits2_mono M1 M2 : 0 < M1 -> M1 <= M2 -> Zdigits2 M1 <= Zdigits2 M2.
Proof.
  intros H1 H12. apply Zdigits2_ge; [lia|].
  pose proof (Zdigits2_bounds M1 H1). lia.
Qed.

Lemma Zdigits2_shift M k : 0 < M -> 0 <= k -> Zdigits2 (M * 2 ^ k) = Zdigits2 M + k.
Proof.
  intros HM Hk.
  pose proof (Zdigits2_bounds M HM) as [Hlo Hhi].
  pose proof (Zdigits2_pos M HM).
  assert (0 < 2 ^ k) by (apply Z.pow_pos_nonneg; lia).
  apply Z.le_antisymm.
  - apply Zdigits2_le; [nia|]. rewrite Z.pow_add_r by lia. nia.
  - apply Zdigits2_ge; [nia|].
    replace (Zdigits2 M + k - 1) with (Zdigits2 M - 1 + k) by lia.
    rewrite Z.pow_add_r by lia. nia.
Qed.

(** *** Rounding a positive product *)

Lemma fexp_eq x : fexp prec emax x = Z.max (x - 53) (-1074).
Proof. reflexivity. Qed.

Lemma fexp_ge_emin x : -1074 <= fexp prec emax x.
Proof. rewrite fexp_eq. lia. Qed.

Lemma fexp_mono x y : x <= y -> fexp prec emax x <= fexp prec emax y.
Proof. rewrite !fexp_eq. lia. Qed.

(** [round_pos s M e] rounds the value [M * 2^e] ([M > 0]) to the
    binary64 grid: the target exponent is [fexp] of the magnitude,
    the mantissa is the nearest integer at that exponent, and a
    mantissa that reaches [2^53] moves one exponent up. *)
Definition normalize_top (m E : Z) : Z * Z :=
  if m =? 2 ^ 53 then (2 ^ 52, E + 1) else (m, E).

Definition pack (s : bool) (mE : Z * Z) : spec_float :=
  match fst mE with
  | Z0 => S754_zero s
  | Zpos p => if snd mE <=? emax - prec then S754_finite s p (snd mE) else S754_infinity s
  | Zneg _ => S754_nan
  end.

Definition round_pos (s : bool) (M e : Z) : spec_float :=
  let E := fexp prec emax (Zdigits2 M + e) in
  pack s (normalize_top (rne M (2 ^ (E - e))) E).

Lemma shr_nonpos mrs e n : n <= 0 -> shr mrs e n = (mrs, e).
Proof. destruct n; cbn [shr]; intros; try reflexivity; lia. Qed.

(** The first rounding never exceeds [2^53]. *)
Lemma rne_mantissa_bound M e :
  0 < M ->
  let E := fexp prec emax (Zdigits2 M + e) in
  e <= E -> 0 <= rne M (2 ^ (E - e)) <= 2 ^ 53.
Proof.
  intros HM E HE.
  assert (HU : 0 < 2 ^ (E - e)) by (apply Z.pow_pos_nonneg; lia).
  pose proof (rne_between M _ HU) as Hb.
  split.
  - assert (0 <= M / 2 ^ (E - e)) by (apply Z.div_pos; lia). lia.
  - apply rne_lt_bound; [assumption|].
    rewrite <- Z.pow_add_r by lia.
    pose proof (Zdigits2_bounds M HM) as [_ Hhi].
    assert (2 ^ Zdigits2 M <= 2 ^ (53 + (E - e))).
    { apply Z.pow_le_mono_r; [lia|]. subst E. rewrite fexp_eq. lia. }
    lia.
Qed.

(** [binary_round_aux] on an exact positive mantissa whose exponent
    is not above the target is [round_pos]. *)
Lemma binary_round_aux_exact s M e :
  0 < M -> e <= fexp prec emax (Zdigits2 M + e) ->
  binary_round_aux prec emax s M e loc_Exact = round_pos s M e.
Proof.
  intros HM HE.
  pose proof (rne_mantissa_bound M e HM HE) as Hm.
  pose proof (fexp_ge_emin (Zdigits2 M + e)) as HEmin.
  unfold binary_round_aux, round_pos, normalize_top, pack, shr_fexp.
  cbn [shr_record_of_loc].
  set (E := fexp prec emax (Zdigits2 M + e)) in *.
  pose proof (shr_rne M e (E - e)) as H1.
  destruct (shr (Build_shr_record M false false) e (E - e)) as [mrs e'].
  destruct H1 as [Hr He']; [lia | lia |].
  rewrite Hr. replace e' with E by lia. clear Hr He' mrs e'.
  set (m := rne M (2 ^ (E - e))) in *.
  destruct (Z.eqb_spec m (2 ^ 53)) as [Hm53 | Hm53].
  - rewrite Hm53.
    replace (fexp prec emax (Zdigits2 (2 ^ 53) + E) - E) with 1
      by (rewrite fexp_eq; change (Zdigits2 (2 ^ 53)) with 54; lia).
    reflexivity.
  - rewrite shr_nonpos; [reflexivity|].
    rewrite fexp_eq.
    destruct (Z.eq_dec m 0) as [-> | Hm0]; [cbn; lia|].
    assert (Zdigits2 m <= 53) by (apply Zdigits2_le; lia).
    lia.
Qed.

(** *** Sign and order of rounded products *)

(** The sign of a float, [None] for NaN. *)
Definition SFsign (x : spec_float) : option bool :=
  match x with
  | S754_nan => None
  | S754_zero s | S754_infinity s | S754_finite s _ _ => Some s
  end.

Lemma pack_sign s m E : 0 <= m -> SFsign (pack s (normalize_top m E)) = Some s.
Proof.
  intros Hm. unfold normalize_top, pack.
  destruct (m =? 2 ^ 53); cbn [fst snd].
  - change (2 ^ 52) with 4503599627370496. cbv iota.
    destruct (E + 1 <=? emax - prec); reflexivity.
  - destruct m; try lia; [reflexivity|].
    destruct (E <=? emax - prec); reflexivity.
Qed.

Lemma round_pos_sign s M e :
  0 < M -> e <= fexp prec emax (Zdigits2 M + e) ->
  SFsign (round_pos s M e) = Some s.
Proof.
  intros HM HE. unfold round_pos. apply pack_sign.
  apply (rne_mantissa_bound M e HM HE).
Qed.

(** Everything with a sign bit clear is above either zero;
    everything that is a number is below plus infinity. *)
Lemma SFleb_zero_nonneg z x : SFsign x = Some false -> SFleb (S754_zero z) x = true.
Proof. destruct x as [s | s | | s m e]; cbn; intros [= ->]; reflexivity. Qed.

Lemma SFleb_nonpos_zero z x : SFsign x = Some true -> SFleb x (S754_zero z) = true.
Proof. destruct x as [s | s | | s m e]; cbn; intros [= ->]; reflexivity. Qed.

Lemma SFleb_infinity x : SFsign x <> None -> SFleb x (S754_infinity false) = true.
Proof. destruct x as [[|] | [|] | | [|] m e]; cbn; intros H; congruence. Qed.

Lemma compare_cont_Z a b : Pos.compare_cont Eq a b = (Zpos a ?= Zpos b).
Proof. reflexivity. Qed.

(** Two rounded mantissas compare as their exponents, then as
    themselves. *)
Lemma pack_le m1 E1 m2 E2 :
  0 <= m1 <= 2 ^ 53 -> 0 <= m2 <= 2 ^ 53 ->
  (E1 = E2 /\ m1 <= m2) \/ (E1 < E2 /\ 2 ^ 52 <= m2) ->
  SFleb (pack false (normalize_top m1 E1)) (pack false (normalize_top m2 E2)) = true.
Proof.
  change (2 ^ 53) with 9007199254740992. change (2 ^ 52) with 4503599627370496.
  intros H1 H2 H. unfold normalize_top, pack.
  change (emax - prec) with 971.
  change (2 ^ 53) with 9007199254740992. change (2 ^ 52) with 4503599627370496.
  destruct (Z.eqb_spec m1 9007199254740992), (Z.eqb_spec m2 9007199254740992);
    cbn [fst snd];
    repeat match goal with
           | |- context [match ?m with Z0 => _ | Zpos _ => _ | Zneg _ => _ end] =>
               is_var m; destruct m; try lia
           | |- context [?a <=? ?b] => destruct (Z.leb_spec a b)
           end;
    unfold SFleb, SFcompare; try reflexivity;
    rewrite ?compare_cont_Z;
    repeat match goal with
           | |- context [Z.compare ?a ?b] => destruct (Z.compare_spec a b)
           end; try reflexivity; lia.
Qed.

(** The rounding is monotone in the value it rounds.  The two values
    are compared at a common exponent [e0] below both. *)
Lemma round_pos_mono M1 e1 M2 e2 e0 :
  0 < M1 -> 0 < M2 ->
  e1 <= fexp prec emax (Zdigits2 M1 + e1) ->
  e2 <= fexp prec emax (Zdigits2 M2 + e2) ->
  e0 <= e1 -> e0 <= e2 ->
  M1 * 2 ^ (e1 - e0) <= M2 * 2 ^ (e2 - e0) ->
  SFleb (round_pos false M1 e1) (round_pos false M2 e2) = true.
Proof.
  intros HM1 HM2 HE1 HE2 H01 H02 HW.
  pose proof (rne_mantissa_bound M1 e1 HM1 HE1) as Hb1.
  pose proof (rne_mantissa_bound M2 e2 HM2 HE2) as Hb2.
  unfold round_pos. cbv zeta in Hb1, Hb2.
  set (E1 := fexp prec emax (Zdigits2 M1 + e1)) in *.
  set (E2 := fexp prec emax (Zdigits2 M2 + e2)) in *.
  assert (Hp1 : 0 < 2 ^ (e1 - e0)) by (apply Z.pow_pos_nonneg; lia).
  assert (Hp2 : 0 < 2 ^ (e2 - e0)) by (apply Z.pow_pos_nonneg; lia).
  assert (HD : Zdigits2 M1 + e1 <= Zdigits2 M2 + e2).
  { pose proof (Zdigits2_mono (M1 * 2 ^ (e1 - e0)) (M2 * 2 ^ (e2 - e0))) as Hd.
    rewrite !Zdigits2_shift in Hd by lia. specialize (Hd ltac:(nia) HW). lia. }
  assert (HE : E1 <= E2) by (apply fexp_mono, HD).
  apply pack_le; [assumption | assumption |].
  destruct (Z.eq_dec E1 E2) as [Heq | Hne]; [left | right]; split; try lia.
  - (* same target exponent: compare at the common unit *)
    rewrite <- (rne_scale M1 (2 ^ (E1 - e1)) (2 ^ (e1 - e0)))
      by (try apply Z.pow_pos_nonneg; lia).
    rewrite <- (rne_scale M2 (2 ^ (E2 - e2)) (2 ^ (e2 - e0)))
      by (try apply Z.pow_pos_nonneg; lia).
    rewrite <- !Z.pow_add_r by lia.
    replace (E1 - e1 + (e1 - e0)) with (E2 - e0) by lia.
    replace (E2 - e2 + (e2 - e0)) with (E2 - e0) by lia.
    apply rne_mono; [apply Z.pow_pos_nonneg; lia | assumption].
  - (* the larger value is normal: its mantissa has 53 digits *)
    apply rne_ge_bound; [apply Z.pow_pos_nonneg; lia|].
    assert (HE2' : E2 - e2 = Zdigits2 M2 - 53).
    { pose proof (fexp_ge_emin (Zdigits2 M1 + e1)) as Hmin. fold E1 in Hmin.
      pose proof (fexp_eq (Zdigits2 M2 + e2)) as HE2'. fold E2 in HE2'. lia. }
    rewrite HE2'.
    pose proof (Zdigits2_bounds M2 HM2) as [Hlo _].
    replace (Zdigits2 M2 - 1) with (52 + (Zdigits2 M2 - 53)) in Hlo by lia.
    rewrite Z.pow_add_r in Hlo by lia. exact Hlo.
Qed.

(** *** Multiplication of valid floats *)

Lemma bounded_spec m e :
  bounded prec emax m e = true ->
  fexp prec emax (Zpos (digits2_pos m) + e) = e /\ e <= 971.
Proof.
  unfold bounded, canonical_mantissa.
  rewrite andb_true_iff, Z.eqb_eq, Z.leb_le. change (emax - prec) with 971. tauto.
Qed.

(** The exponent of an exact product of two valid floats is never
    above the exponent the product rounds to. *)
Lemma product_exponent m1 e1 m2 e2 :
  bounded prec emax m1 e1 = true -> bounded prec emax m2 e2 = true ->
  e1 + e2 <= fexp prec emax (Zdigits2 (Zpos (m1 * m2)) + (e1 + e2)).
Proof.
  intros [H1 _]%bounded_spec [H2 _]%bounded_spec.
  rewrite fexp_eq in *.
  pose proof (digits2_pos_bounds m1) as [L1 _].
  pose proof (digits2_pos_bounds m2) as [L2 _].
  set (d1 := Zpos (digits2_pos m1)) in *. set (d2 := Zpos (digits2_pos m2)) in *.
  assert (Hd1 : 1 <= d1) by (subst d1; lia).
  assert (Hd2 : 1 <= d2) by (subst d2; lia).
  assert (Hd : d1 + d2 - 1 <= Zdigits2 (Zpos (m1 * m2))).
  { apply Zdigits2_ge; [lia|]. rewrite Pos2Z.inj_mul.
    replace (d1 + d2 - 1 - 1) with ((d1 - 1) + (d2 - 1)) by lia.
    rewrite Z.pow_add_r by lia.
    apply Z.mul_le_mono_nonneg; try assumption; apply Z.pow_nonneg; lia. }
  lia.
Qed.

Lemma SFmul_finite s1 m1 e1 s2 m2 e2 :
  bounded prec emax m1 e1 = true -> bounded prec emax m2 e2 = true ->
  SF64mul (S754_finite s1 m1 e1) (S754_finite s2 m2 e2)
  = round_pos (xorb s1 s2) (Zpos (m1 * m2)) (e1 + e2).
Proof.
  intros B1 B2. unfold SF64mul; cbn [SFmul].
  apply binary_round_aux_exact; [lia | apply product_exponent; assumption].
Qed.

Lemma SFmul_comm x y : SF64mul x y = SF64mul y x.
Proof.
  unfold SF64mul.
  destruct x as [sx | sx | | sx mx ex], y as [sy | sy | | sy my ey];
    cbn [SFmul]; try reflexivity;
    rewrite (xorb_comm sx sy); try reflexivity.
  rewrite (Pos.mul_comm mx my), (Z.add_comm ex ey). reflexivity.
Qed.

(** The product of a number with a finite non-zero float has the
    product of the signs; in particular it is a number. *)
Lemma SFmul_sign x sx sc mc ec :
  valid_binary x = true -> bounded prec emax mc ec = true ->
  SFsign x = Some sx ->
  SFsign (SF64mul x (S754_finite sc mc ec)) = Some (xorb sx sc).
Proof.
  intros Vx Bc Hx.
  destruct x as [s | s | | s m e]; cbn in Hx; try discriminate;
    injection Hx as ->; try reflexivity.
  rewrite SFmul_finite by assumption.
  apply round_pos_sign; [lia | apply product_exponent; assumption].
Qed.

(** Multiplying by a positive finite float is monotone on the
    non-negative floats, plus infinity included. *)
Lemma SFmul_mono x1 x2 mc ec :
  valid_binary x1 = true -> valid_binary x2 = true ->
  bounded prec emax mc ec = true ->
  SFleb (S754_zero false) x1 = true ->
  SFleb x1 x2 = true ->
  SFleb (SF64mul x1 (S754_finite false mc ec)) (SF64mul x2 (S754_finite false mc ec)) = true.
Proof.
  intros V1 V2 Bc H0 H12.
  destruct x1 as [s1 | [|] | | [|] m1 e1]; try discriminate H0;
    destruct x2 as [s2 | [|] | | [|] m2 e2]; try discriminate H12;
    try reflexivity.
  - (* zero, finite *)
    rewrite SFmul_finite by assumption. change (SF64mul _ _) with (S754_zero (xorb s1 false)).
    apply SFleb_zero_nonneg, round_pos_sign; [lia | apply product_exponent; assumption].
  - (* finite, infinity *)
    rewrite SFmul_finite by assumption. change (SF64mul _ _) with (S754_infinity false).
    apply SFleb_infinity. rewrite round_pos_sign; [discriminate | lia |].
    apply product_exponent; assumption.
  - (* finite, finite *)
    cbn in V1, V2.
    rewrite !SFmul_finite by assumption. cbn [xorb].
    pose proof (bounded_spec _ _ V1) as [C1 _].
    pose proof (bounded_spec _ _ V2) as [C2 _].
    rewrite fexp_eq in C1, C2.
    pose proof (digits2_pos_bounds m1) as [_ U1].
    pose proof (digits2_pos_bounds m2) as [L2 _].
    unfold SFleb, SFcompare in H12. rewrite compare_cont_Z in H12.
    apply (round_pos_mono _ _ _ _ (e1 + ec));
      try lia; try (apply product_exponent; assumption).
    + destruct (Z.compare_spec e1 e2); try discriminate H12; lia.
    + replace (e1 + ec - (e1 + ec)) with 0 by lia.
      replace (e2 + ec - (e1 + ec)) with (e2 - e1) by lia.
      rewrite Z.pow_0_r, Z.mul_1_r, !Pos2Z.inj_mul.
      destruct (Z.compare_spec e1 e2) as [He | He | He]; try discriminate H12.
      * subst e2. rewrite Z.sub_diag, Z.pow_0_r, Z.mul_1_r.
        apply Z.mul_le_mono_nonneg_r; [lia|].
        destruct (Z.compare_spec (Zpos m1) (Zpos m2)); try discriminate H12; lia.
      * assert (Hd2 : Zpos (digits2_pos m2) = 53) by lia.
        rewrite Hd2 in L2. change (2 ^ (53 - 1)) with 4503599627370496 in L2.
        assert (U1' : Zpos m1 < 9007199254740992).
        { eapply Z.lt_le_trans; [exact U1|].
          change 9007199254740992 with (2 ^ 53). apply Z.pow_le_mono_r; lia. }
        assert (Hp : 2 ^ 1 <= 2 ^ (e2 - e1)) by (apply Z.pow_le_mono_r; lia).
        rewrite Z.pow_1_r in Hp.
        apply Z.le_trans with (Zpos m2 * Zpos mc * 2).
        -- replace (Zpos m2 * Zpos mc * 2) with (2 * Zpos m2 * Zpos mc) by ring.
           apply Z.mul_le_mono_nonneg_r; lia.
        -- apply Z.mul_le_mono_nonneg_l; lia.
Qed.

(** *** The same facts for primitive floats *)

Lemma Prim2SF_zero : Prim2SF 0%float = S754_zero false.
Proof. reflexivity. Qed.

Lemma Prim2SF_infinity : Prim2SF infinity = S754_infinity false.
Proof. reflexivity. Qed.

Lemma mul_comm (x y : float) : (x * y)%float = (y * x)%float.
Proof. apply Prim2SF_inj. rewrite !mul_spec. apply SFmul_comm. Qed.

(** A float strictly between zero and infinity is a positive finite
    binary64 number. *)
Lemma pos_finite_SF (c : float) :
  (0 <? c)%float = true -> (c <? infinity)%float = true ->
  exists m e, Prim2SF c = S754_finite false m e /\ bounded prec emax m e = true.
Proof.
  rewrite !ltb_spec, Prim2SF_zero, Prim2SF_infinity.
  pose proof (Prim2SF_valid c) as V.
  destruct (Prim2SF c) as [s | [|] | | [|] m e]; cbn; try discriminate.
  intros _ _. exists m, e. split; [reflexivity | exact V].
Qed.

Lemma get_sign_spec (x : float) :
  get_sign x = match SFsign (Prim2SF x) with Some s => s | None => false end.
Proof.
  unfold get_sign, is_zero. rewrite eqb_spec.
  change (Prim2SF zero) with (S754_zero false).
  destruct (Prim2SF x) as [s | s | | s m e] eqn:E; cbn [SFeqb SFcompare SFsign].
  - rewrite ltb_spec, div_spec, E. destruct s; reflexivity.
  - destruct s; cbn; rewrite ltb_spec, E; reflexivity.
  - rewrite ltb_spec, E. reflexivity.
  - destruct s; cbn; rewrite ltb_spec, E; reflexivity.
Qed.

Section PositiveFactor.
Variable c : float.
Hypothesis c_pos : (0 <? c)%float = true.
Hypothesis c_fin : (c <? infinity)%float = true.

Lemma mul_le_mono_nonneg (x1 x2 : float) :
  (0 <=? x1)%float = true -> (x1 <=? x2)%float = true ->
  (x1 * c <=? x2 * c)%float = true.
Proof.
  destruct (pos_finite_SF c c_pos c_fin) as (mc & ec & Ec & Bc).
  rewrite !leb_spec, !mul_spec, Ec, Prim2SF_zero.
  apply SFmul_mono; auto using Prim2SF_valid.
Qed.

Lemma mul_nonneg (x : float) :
  (0 <=? x)%float = true -> (0 <=? x * c)%float = true.
Proof.
  intros Hx. pose proof (mul_le_mono_nonneg 0 x eq_refl Hx) as H.
  destruct (pos_finite_SF c c_pos c_fin) as (mc & ec & Ec & Bc).
  rewrite leb_spec, !mul_spec, Ec, Prim2SF_zero in H.
  rewrite leb_spec, mul_spec, Ec, Prim2SF_zero. exact H.
Qed.

(** A factor that carries a sign keeps it. *)
Lemma mul_sign (x : float) s :
  SFsign (Prim2SF x) = Some s -> SFsign (Prim2SF (x * c)) = Some s.
Proof.
  intros Hx.
  destruct (pos_finite_SF c c_pos c_fin) as (mc & ec & Ec & Bc).
  rewrite mul_spec, Ec.
  rewrite (SFmul_sign _ s) by auto using Prim2SF_valid.
  rewrite xorb_false_r. reflexivity.
Qed.
End PositiveFactor.

(** A float below zero has its sign bit set; a float with its sign
    bit set is not above zero. *)
Lemma neg_sign (x : float) : (x <? 0)%float = true -> SFsign (Prim2SF x) = Some true.
Proof.
  rewrite ltb_spec, Prim2SF_zero.
  destruct (Prim2SF x) as [s | [|] | | [|] m e]; cbn; try discriminate; reflexivity.
Qed.

Lemma sign_nonpos (x : float) : SFsign (Prim2SF x) = Some true -> (x <=? 0)%float = true.
Proof.
  rewrite leb_spec, Prim2SF_zero. apply SFleb_nonpos_zero.
Qed.

(** A float with its sign bit set is below zero, or is the negative
    zero. *)
Lemma sign_neg_cases (x : float) :
  SFsign (Prim2SF x) = Some true -> (x <? 0)%float = true \/ x = neg_zero.
Proof.
  rewrite ltb_spec, Prim2SF_zero.
  destruct (Prim2SF x) as [s | s | | s m e] eqn:E; cbn [SFsign];
    try discriminate; intros [= ->].
  - right. apply Prim2SF_inj. rewrite E. reflexivity.
  - left. reflexivity.
  - left. reflexivity.
Qed.

(** Multiplying by [1.0] changes no float. *)
Lemma SFmul_one x :
  valid_binary x = true -> SF64mul x (S754_finite false 4503599627370496 (-52)) = x.
Proof.
  intros V. destruct x as [[|] | [|] | | s m e]; try reflexivity.
  cbn in V. rewrite SFmul_finite by (try assumption; reflexivity).
  destruct (bounded_spec _ _ V) as [C Hmax].
  pose proof (digits2_pos_bounds m) as [_ U].
  assert (Hd : Zpos (digits2_pos m) <= 53) by (rewrite fexp_eq in C; lia).
  assert (U' : Zpos m < 2 ^ 53).
  { eapply Z.lt_le_trans; [exact U|]. apply Z.pow_le_mono_r; lia. }
  unfold round_pos.
  rewrite Pos2Z.inj_mul. change 4503599627370496 with (2 ^ 52).
  rewrite Zdigits2_shift by lia. cbn [Zdigits2].
  replace (Zpos (digits2_pos m) + 52 + (e + -52)) with (Zpos (digits2_pos m) + e) by lia.
  rewrite C. replace (e - (e + -52)) with 52 by lia.
  rewrite rne_exact by lia.
  unfold normalize_top, pack.
  destruct (Z.eqb_spec (Zpos m) (2 ^ 53)) as [E | _]; [lia|].
  cbn [fst snd]. change (emax - prec) with 971.
  destruct (Z.leb_spec e 971); [| lia].
  rewrite xorb_false_r. reflexivity.
Qed.

Lemma mul_one_r (x : float) : (x * 1)%float = x.
Proof.
  apply Prim2SF_inj. rewrite mul_spec.
  change (Prim2SF 1%float) with (S754_finite false 4503599627370496 (-52)).
  apply SFmul_one, Prim2SF_valid.
Qed.

(** *** Monotonicity in the other factor *)

(** For a fixed non-negative float [c] (zero and plus infinity
    included) the product [x * c] is monotone in a positive finite
    [x]. *)
Lemma SFmul_mono_pos x1 x2 c :
  valid_binary x1 = true -> valid_binary x2 = true -> valid_binary c = true ->
  SFltb (S754_zero false) x1 = true ->
  SFleb x1 x2 = true ->
  SFltb x2 (S754_infinity false) = true ->
  SFleb (S754_zero false) c = true ->
  SFleb (SF64mul x1 c) (SF64mul x2 c) = true.
Proof.
  intros V1 V2 Vc H1 H12 H2 Hc.
  destruct x1 as [s1 | [|] | | [|] m1 e1]; try discriminate H1;
    destruct x2 as [s2 | [|] | | [|] m2 e2]; try discriminate H12;
    try discriminate H2;
    destruct c as [sc | [|] | | [|] mc ec]; try discriminate Hc;
    try reflexivity.
  apply SFmul_mono; auto.
Qed.

Lemma mul_le_mono_pos (x1 x2 c : float) :
  (0 <? x1)%float = true -> (x1 <=? x2)%float = true ->
  (x2 <? infinity)%float = true -> (0 <=? c)%float = true ->
  (x1 * c <=? x2 * c)%float = true.
Proof.
  rewrite !ltb_spec, !leb_spec, !mul_spec, Prim2SF_zero, Prim2SF_infinity.
  apply SFmul_mono_pos; apply Prim2SF_valid.
Qed.

(** A zero times a finite float is a zero. *)
Lemma mul_zero_l (x c : float) :
  (x =? 0)%float = true -> (0 <? c)%float = true -> (c <? infinity)%float = true ->
  (x * c =? 0)%float = true.
Proof.
  intros Hx Hc Hfin.
  destruct (pos_finite_SF c Hc Hfin) as (mc & ec & Ec & Bc).
  revert Hx. rewrite !eqb_spec, mul_spec, Ec, Prim2SF_zero.
  destruct (Prim2SF x) as [s | [|] | | [|] m e]; cbn; try discriminate; reflexivity.
Qed.

(** *** Addition of non-negative floats *)

Lemma iter_xO m d : Zpos (Pos.iter xO m d) = Zpos m * 2 ^ Zpos d.
Proof.
  induction d as [| d IH] using Pos.peano_ind.
  - cbn [Pos.iter]. rewrite (Pos2Z.inj_xO m), Z.pow_1_r. lia.
  - rewrite Pos.iter_succ, (Pos2Z.inj_xO (Pos.iter xO m d)), IH,
      Pos2Z.inj_succ, Z.pow_succ_r by lia. lia.
Qed.

(** [shl_align] lowers the exponent to the target when the target is
    below it, and keeps the value. *)
Lemma shl_align_spec mx ex ex' mz ez :
  shl_align mx ex ex' = (mz, ez) ->
  ez <= ex' /\ ez <= ex /\ Zpos mz = Zpos mx * 2 ^ (ex - ez).
Proof.
  unfold shl_align. destruct (ex' - ex) as [| p | d] eqn:E; intros [= <- <-].
  - rewrite Z.sub_diag, Z.pow_0_r. lia.
  - rewrite Z.sub_diag, Z.pow_0_r. lia.
  - rewrite iter_xO. replace (ex - ex') with (Zpos d) by lia. lia.
Qed.

Lemma binary_round_sign s m e : SFsign (binary_round prec emax s m e) = Some s.
Proof.
  unfold binary_round.
  destruct (shl_align m e (fexp prec emax (Zpos (digits2_pos m) + e)))
    as [mz ez] eqn:E.
  apply shl_align_spec in E. destruct E as (Hle & Hle' & Hm).
  assert (Hdig : Zdigits2 (Zpos mz) + ez = Zpos (digits2_pos m) + e).
  { rewrite Hm, Zdigits2_shift by lia. cbn [Zdigits2]. lia. }
  rewrite binary_round_aux_exact by (try lia; rewrite Hdig; exact Hle).
  apply round_pos_sign; [lia | rewrite Hdig; exact Hle].
Qed.

Lemma SFadd_nonneg x y :
  SFleb (S754_zero false) x = true -> SFleb (S754_zero false) y = true ->
  SFleb (S754_zero false) (SF64add x y) = true.
Proof.
  intros Hx Hy.
  destruct x as [[|] | [|] | | [|] m1 e1]; try discriminate Hx;
    destruct y as [[|] | [|] | | [|] m2 e2]; try discriminate Hy;
    try reflexivity.
  unfold SF64add, SFadd, binary_normalize. cbn [cond_Zopp Z.add].
  apply SFleb_zero_nonneg, binary_round_sign.
Qed.

Lemma add_nonneg (x y : float) :
  (0 <=? x)%float = true -> (0 <=? y)%float = true -> (0 <=? x + y)%float = true.
Proof.
  rewrite !leb_spec, add_spec, Prim2SF_zero. apply SFadd_nonneg.
Qed.

(** *** Small order facts *)

Lemma lt_infinity_of_le (x y : float) :
  (x <=? y)%float = true -> (y <? infinity)%float = true ->
  (x <? infinity)%float = true.
Proof.
  rewrite leb_spec, !ltb_spec, Prim2SF_infinity.
  destruct (Prim2SF x) as [s1 | [|] | | [|] m1 e1],
           (Prim2SF y) as [s2 | [|] | | [|] m2 e2];
    cbn; try discriminate; reflexivity.
Qed.

(** A float that is [>= 0] is a number and is not below zero. *)
Lemma nonneg_not_nan (x : float) :
  (0 <=? x)%float = true -> is_nan x = false /\ (x <? 0)%float = false.
Proof.
  unfold is_nan. rewrite leb_spec, ltb_spec, eqb_spec, Prim2SF_zero.
  destruct (Prim2SF x) as [s | [|] | | [|] m e]; cbn; try discriminate;
    intros _; rewrite ?Z.compare_refl, ?Pos.compare_cont_refl; split; reflexivity.
Qed.

(** Adding [0.0] to a number gives a float equal to it. *)
Lemma add_zero_r_eqb (x : float) :
  is_nan x = false -> (x + 0 =? x)%float = true.
Proof.
  unfold is_nan. rewrite !eqb_spec, add_spec, Prim2SF_zero.
  destruct (Prim2SF x) as [[|] | [|] | | [|] m e]; cbn; try discriminate;
    intros _; rewrite ?Z.compare_refl, ?Pos.compare_cont_refl; reflexivity.
Qed.

End Binary64.

(* ------------------------------------------------------------------ *)
(** ** The program *)

Module Transport.
Local Open Scope float_scope.

(** [BASE_RATE_PER_KM = 500.0] *)
Definition BASE_RATE_PER_KM : float := 500.

(** *** class Passenger

    [name : str], [age : int] (unbounded, hence [Z]),
    [distance_km : float], and the mutable field [final_fare]. *)
Record Passenger : Type := mkPassenger {
  name : string;
  age : Z;
  distance_km : float;
  final_fare : float
}.

(** [Passenger.__init__]: the fare starts at [0.0]. *)
Definition Passenger_init (name : string) (age : Z) (distance_km : float) : Passenger :=
  {| name := name; age := age; distance_km := distance_km; final_fare := 0 |}.

(** The assignment [self.final_fare = v]. *)
Definition set_final_fare (self : Passenger) (v : float) : Passenger :=
  {| name := name self; age := age self; distance_km := distance_km self;
     final_fare := v |}.

(** [Passenger.compute_fare], in state-passing form: the passenger
    after the call and the returned value. *)
Definition compute_fare (self : Passenger) (base_rate_per_km : float)
  : Passenger * float :=
  let base_fare := base_rate_per_km * distance_km self in
  let self :=
    if (age self <? 12)%Z then set_final_fare self (base_fare * 0.5)
    else if (age self >? 60)%Z then set_final_fare self (base_fare * 0.7)
    else set_final_fare self base_fare in
  (self, final_fare self).

(** The pure rule behind [compute_fare]: the value it returns for a
    passenger of the given distance and age. *)
Definition FareRule (distance_km : float) (age : Z) (rate : float) : float :=
  snd (compute_fare (Passenger_init EmptyString age distance_km) rate).

(** *** The builtin [sum]

    [sum(iterable)] starts from the integer [0], which the first
    addition converts to [0.0]; the sum of no item is that [0], here
    identified with [0.0].  Up to CPython 3.11 the items are added
    from left to right; since 3.12 floats are added with Neumaier's
    compensation (a running error term, added at the end when it is
    finite and not zero).  Both are modelled. *)
Inductive sum_algorithm : Type := LeftToRight | Compensated.

Definition sum_left_to_right (items : list float) : float :=
  fold_left add items 0.

Definition compensated_step (acc : float * float) (x : float) : float * float :=
  let '(f_result, c) := acc in
  let t := f_result + x in
  let c :=
    if abs x <=? abs f_result then c + ((f_result - t) + x)
    else c + ((x - t) + f_result) in
  (t, c).

Definition sum_compensated (items : list float) : float :=
  match items with
  | [] => 0
  | x :: rest =>
      let '(f_result, c) := fold_left compensated_step rest (0 + x, 0) in
      if negb (c =? 0) && is_finite c then f_result + c else f_result
  end.

Definition py_sum (alg : sum_algorithm) (items : list float) : float :=
  match alg with
  | LeftToRight => sum_left_to_right items
  | Compensated => sum_compensated items
  end.

(** *** class TransportFareCalculator

    The calculator owns its passengers: the list is modelled by value,
    in insertion order.  (An object stored twice would be processed
    twice with the same result, since [compute_fare] reads only
    fields it does not write.) *)
Record TransportFareCalculator : Type := mkCalculator {
  base_rate_per_km : float;
  passengers : list Passenger
}.

(** [TransportFareCalculator.__init__] *)
Definition Calculator_init (base_rate_per_km : float) : TransportFareCalculator :=
  {| base_rate_per_km := base_rate_per_km; passengers := [] |}.

(** [add_passenger]: [self.passengers.append(passenger)] *)
Definition add_passenger (self : TransportFareCalculator) (passenger : Passenger)
  : TransportFareCalculator :=
  {| base_rate_per_km := base_rate_per_km self;
     passengers := passengers self ++ [passenger] |}.

(** The loop of [process_all] over the list: each passenger is
    replaced by its state after [compute_fare]; the returned value
    is dropped, as in the source. *)
Fixpoint process_passengers (rate : float) (l : list Passenger) : list Passenger :=
  match l with
  | [] => []
  | passenger :: rest =>
      let '(passenger', _) := compute_fare passenger rate in
      passenger' :: process_passengers rate rest
  end.

Definition process_all (self : TransportFareCalculator) : TransportFareCalculator :=
  {| base_rate_per_km := base_rate_per_km self;
     passengers := process_passengers (base_rate_per_km self) (passengers self) |}.

(** [total_collected]: [sum(p.final_fare for p in self.passengers)] *)
Definition total_collected (alg : sum_algorithm) (self : TransportFareCalculator) : float :=
  py_sum alg (map final_fare (passengers self)).

(** A batch as the caller builds it: the constructor, then
    [add_passenger] with a fresh [Passenger] per input. *)
Definition fresh_batch (rate : float) (inputs : list (string * Z * float))
  : TransportFareCalculator :=
  fold_left (fun self '(n, a, d) => add_passenger self (Passenger_init n a d))
            inputs (Calculator_init rate).

(** *** Console output

    [print_summary] reads the calculator and writes lines.  Its
    effects are modelled by a state monad over the calculator object
    and the console, one string per [print] call. *)
Record World : Type := mkWorld {
  this : TransportFareCalculator;
  stdout : list string
}.

Definition IO (A : Type) : Type := World -> A * World.

Definition ret {A : Type} (a : A) : IO A := fun w => (a, w).

Definition bind {A B : Type} (m : IO A) (k : A -> IO B) : IO B :=
  fun w => let '(a, w') := m w in k a w'.

Notation "x <- m ;; k" := (bind m (fun x => k))
  (at level 61, m at next level, right associativity).
Notation "m ;; k" := (bind m (fun _ => k))
  (at level 61, right associativity).

Definition print (line : string) : IO unit :=
  fun w => (tt, {| this := this w; stdout := stdout w ++ [line] |}).

Definition get_passengers : IO (list Passenger) :=
  fun w => (passengers (this w), w).

Definition call_total_collected (alg : sum_algorithm) : IO float :=
  fun w => (total_collected alg (this w), w).

Fixpoint for_each {A : Type} (l : list A) (body : A -> IO unit) : IO unit :=
  match l with
  | [] => ret tt
  | x :: rest => body x ;; for_each rest body
  end.

(** String helpers of the format specifications used.  A [string]
    stands for a sequence of characters, [String.length] for [len]. *)
Fixpoint replicate (n : nat) (s : string) : string :=
  match n with
  | O => EmptyString
  | S n' => (s ++ replicate n' s)%string
  end.

Definition spaces (n : nat) : string := replicate n " ".

(** [{s:<w}] and [{s:>w}]: pad to width [w], never truncate. *)
Definition ljust (s : string) (w : nat) : string :=
  (s ++ spaces (w - String.length s))%string.

Definition rjust (s : string) (w : nat) : string :=
  (spaces (w - String.length s) ++ s)%string.

(** [str.center]: the odd space goes left when the width is odd. *)
Definition center (s : string) (w : nat) : string :=
  let marg := (w - String.length s)%nat in
  let left := (marg / 2 + (if Nat.odd marg && Nat.odd w then 1 else 0))%nat in
  (spaces left ++ s ++ spaces (marg - left))%string.

Definition newline : string := String (ascii_of_nat 10) EmptyString.

Section Summary.
(** Python's conversion of numbers to text is not part of the
    program: [format_fixed prec grouped x] stands for
    [format(x, ".<prec>f")], with thousands separators when
    [grouped]; [str_int] for the decimal text of an [int]. *)
Variable format_fixed : nat -> bool -> float -> string.
Variable str_int : Z -> string.
Variable alg : sum_algorithm.

Definition rule (c : string) : string := replicate 50 c.

(** The row printed for one passenger. *)
Definition summary_row (p : Passenger) : string :=
  let fare_str := format_fixed 0 true (final_fare p) in
  (ljust (name p) 20 ++ " " ++ rjust (str_int (age p)) 5 ++ " "
   ++ rjust (format_fixed 2 false (distance_km p)) 14 ++ " "
   ++ rjust fare_str 15)%string.

Definition header_row : string :=
  (ljust "Name" 20 ++ " " ++ rjust "Age" 5 ++ " "
   ++ rjust "Distance(km)" 14 ++ " " ++ rjust "Fare (pesos)" 15)%string.

Definition total_row (total : float) : string :=
  let total_str := format_fixed 0 true total in
  (ljust "Total collected:" 39 ++ " " ++ rjust total_str 11 ++ " pesos")%string.

Definition print_summary : IO unit :=
  print (newline ++ rule "=")%string ;;
  print (center "SUMMARY OF FARES" 50) ;;
  print (rule "=") ;;
  ps <- get_passengers ;;
  match ps with
  | [] => print "No passengers processed."
  | _ :: _ =>
      print header_row ;;
      print (rule "-") ;;
      for_each ps (fun p => print (summary_row p)) ;;
      print (rule "-") ;;
      total <- call_total_collected alg ;;
      print (total_row total) ;;
      print (rule "=" ++ newline)%string
  end.

(** The lines one call writes, as a function of the calculator. *)
Definition summary_lines (self : TransportFareCalculator) : list string :=
  [(newline ++ rule "=")%string; center "SUMMARY OF FARES" 50; rule "="]
  ++ match passengers self with
     | [] => ["No passengers processed."%string]
     | _ :: _ =>
         [header_row; rule "-"]
         ++ map summary_row (passengers self)
         ++ [rule "-"; total_row (total_collected alg self);
             (rule "=" ++ newline)%string]
     end.
End Summary.

(** *** Sample batches *)

(** Five full-fare passengers whose distances are powers of two: at
    rate [1.0] their fares are the distances themselves. *)
Definition order_records : list Passenger :=
  map (Passenger_init "p" 30) [1; 0x1p-53; 0x1p-107; 0x1p-107; 0x1p-107].

(** Three seniors with everyday distances. *)
Definition senior_records : list Passenger :=
  map (Passenger_init "s" 65) [5.7; 11; 4.1].

End Transport.

(* ------------------------------------------------------------------ *)
(** ** The interactive part: validated input and [main] *)

Module Interactive.
Import Transport.
Local Open Scope string_scope.
Local Open Scope list_scope.

(** What the program writes: [print(text)] writes the text and a
    newline, [input(prompt)] writes the prompt alone. *)
Inductive output : Type :=
| Printed (text : string)
| Prompted (text : string).

(** The terminal: the lines still to be read (without their
    newline) and what has been written so far. *)
Record Console : Type := mkConsole {
  stdin : list string;
  screen : list output
}.

(** [input] raises [EOFError] when no line is left; nothing in the
    program catches it. *)
Inductive outcome (A : Type) : Type :=
| Returned (a : A)
| EOFError.
Arguments Returned {A} a.
Arguments EOFError {A}.

Definition Run (A : Type) : Type := Console -> outcome A * Console.

Definition ret {A : Type} (a : A) : Run A := fun c => (Returned a, c).

Definition bind {A B : Type} (m : Run A) (k : A -> Run B) : Run B :=
  fun c =>
    match m c with
    | (Returned a, c') => k a c'
    | (EOFError, c') => (EOFError, c')
    end.

#[local, warnings="-notation-overridden"]
Notation "x <- m ;; k" := (bind m (fun x => k))
  (at level 61, m at next level, right associativity).
#[local, warnings="-notation-overridden"]
Notation "m ;; k" := (bind m (fun _ => k))
  (at level 61, right associativity).

Definition print (text : string) : Run unit :=
  fun c => (Returned tt, {| stdin := stdin c; screen := screen c ++ [Printed text] |}).

Section Builtins.
(** Conversions done by the interpreter, not by the program:
    [strip] is [str.strip], [parse_int s] is [int(s)] and
    [parse_float s] is [float(s)], with [None] for [ValueError];
    [str_int] and [format_fixed] are as in [print_summary]. *)
Variable strip : string -> string.
Variable parse_int : string -> option Z.
Variable parse_float : string -> option float.
Variable str_int : Z -> string.
Variable format_fixed : nat -> bool -> float -> string.
Variable alg : sum_algorithm.

(** The truth value of a string: [if value:] *)
Definition truthy (value : string) : bool :=
  match value with
  | EmptyString => false
  | String _ _ => true
  end.

(** [get_non_empty_string].  Each turn of [while True] calls
    [input(prompt)], which writes the prompt and takes the next line,
    or raises [EOFError] when there is none; the loop is a recursion
    on the lines left. *)
Fixpoint get_non_empty_string_loop (prompt : string) (lines : list string)
  (scr : list output) : outcome string * Console :=
  match lines with
  | [] => (EOFError, {| stdin := []; screen := scr ++ [Prompted prompt] |})
  | line :: rest =>
      let scr := scr ++ [Prompted prompt] in
      let value := strip line in
      if truthy value then (Returned value, {| stdin := rest; screen := scr |})
      else
        get_non_empty_string_loop prompt rest
          (scr ++ [Printed "El valor no puede estar vacío. Intente de nuevo."])
  end.

Definition get_non_empty_string (prompt : string) : Run string :=
  fun c => get_non_empty_string_loop prompt (stdin c) (screen c).

(** [get_positive_int]: [int(raw)] inside [try], the test
    [value >= 0], one message for a negative integer, another for
    [ValueError]. *)
Fixpoint get_positive_int_loop (prompt : string) (lines : list string)
  (scr : list output) : outcome Z * Console :=
  match lines with
  | [] => (EOFError, {| stdin := []; screen := scr ++ [Prompted prompt] |})
  | line :: rest =>
      let scr := scr ++ [Prompted prompt] in
      let raw := strip line in
      match parse_int raw with
      | Some value =>
          if (value >=? 0)%Z then (Returned value, {| stdin := rest; screen := scr |})
          else
            get_positive_int_loop prompt rest
              (scr ++ [Printed "Ingrese un número entero no negativo."])
      | None =>
          get_positive_int_loop prompt rest
            (scr ++ [Printed "Entrada inválida. Ingrese un número entero válido."])
      end
  end.

Definition get_positive_int (prompt : string) : Run Z :=
  fun c => get_positive_int_loop prompt (stdin c) (screen c).

(** [get_non_negative_float]: the same with [float(raw)] and the
    float comparison [value >= 0.0]. *)
Fixpoint get_non_negative_float_loop (prompt : string) (lines : list string)
  (scr : list output) : outcome float * Console :=
  match lines with
  | [] => (EOFError, {| stdin := []; screen := scr ++ [Prompted prompt] |})
  | line :: rest =>
      let scr := scr ++ [Prompted prompt] in
      let raw := strip line in
      match parse_float raw with
      | Some value =>
          if (0 <=? value)%float then (Returned value, {| stdin := rest; screen := scr |})
          else
            get_non_negative_float_loop prompt rest
              (scr ++ [Printed "Ingrese un valor numérico no negativo."])
      | None =>
          get_non_negative_float_loop prompt rest
            (scr ++ [Printed "Entrada inválida. Ingrese un número válido (ej: 12.5)."])
      end
  end.

Definition get_non_negative_float (prompt : string) : Run float :=
  fun c => get_non_negative_float_loop prompt (stdin c) (screen c).

(** The loop of [main] over [range(1, num_passengers + 1)]: [n] turns
    are left, [i] is the loop variable. *)
Fixpoint read_passengers (n : nat) (i : Z) (calculator : TransportFareCalculator)
  : Run TransportFareCalculator :=
  match n with
  | O => ret calculator
  | S n' =>
      print (newline ++ "--- Passenger " ++ str_int i ++ " ---")%string ;;
      name <- get_non_empty_string "Name: " ;;
      age <- get_positive_int "Age (years): " ;;
      distance_km <- get_non_negative_float "Distance to travel (km): " ;;
      let passenger := Passenger_init name age distance_km in
      read_passengers n' (i + 1) (add_passenger calculator passenger)
  end.

(** [calculator.print_summary()]: the lines it prints reach the
    screen. *)
Definition call_print_summary (calculator : TransportFareCalculator) : Run unit :=
  fun c =>
    let w := snd (print_summary format_fixed str_int alg
                    {| this := calculator; stdout := [] |}) in
    (Returned tt,
     {| stdin := stdin c; screen := screen c ++ map Printed (stdout w) |}).

Definition main : Run unit :=
  print (replicate 60 "=") ;;
  print (center "TRANSPORT FARE SIMULATOR" 60) ;;
  print (replicate 60 "=") ;;
  num_passengers <-
    get_positive_int "Ingrese la cantidad de pasajeros a procesar (N): " ;;
  if (num_passengers =? 0)%Z then
    print (newline ++ "No hay pasajeros para procesar. Fin del programa.")%string
  else
    calculator <-
      read_passengers (Z.to_nat num_passengers) 1 (Calculator_init BASE_RATE_PER_KM) ;;
    call_print_summary (process_all calculator).

(** Which lines each validator turns down, and what it answers. *)
Definition name_rejected (line : string) : bool := negb (truthy (strip line)).

Definition int_rejected (line : string) : bool :=
  match parse_int (strip line) with
  | Some value => negb (value >=? 0)%Z
  | None => true
  end.

Definition int_complaint (line : string) : string :=
  match parse_int (strip line) with
  | Some _ => "Ingrese un número entero no negativo."
  | None => "Entrada inválida. Ingrese un número entero válido."
  end.

Definition float_rejected (line : string) : bool :=
  match parse_float (strip line) with
  | Some value => negb (0 <=? value)%float
  | None => true
  end.

Definition float_complaint (line : string) : string :=
  match parse_float (strip line) with
  | Some _ => "Ingrese un valor numérico no negativo."
  | None => "Entrada inválida. Ingrese un número válido (ej: 12.5)."
  end.

Definition name_complaint (line : string) : string :=
  "El valor no puede estar vacío. Intente de nuevo.".

(** What [main] may store for one passenger: a non-empty name, an
    age [>= 0], a distance [>= 0.0]. *)
Definition valid_input (input : string * Z * float) : Prop :=
  let '(nm, a, d) := input in
  nm <> EmptyString /\ (0 <= a)%Z /\ (0 <=? d)%float = true.

(** Three lines that are accepted at once, and the passenger data
    they stand for. *)
Definition scripted (lines : string * string * string)
  (input : string * Z * float) : Prop :=
  let '(name_line, age_line, distance_line) := lines in
  let '(nm, a, d) := input in
  truthy (strip name_line) = true /\ nm = strip name_line
  /\ parse_int (strip age_line) = Some a /\ (0 <= a)%Z
  /\ parse_float (strip distance_line) = Some d /\ (0 <=? d)%float = true.

Definition script_lines (script : list (string * string * string)) : list string :=
  flat_map (fun '(name_line, age_line, distance_line) =>
              [name_line; age_line; distance_line]) script.

(** The calculator after [add_passenger] with a fresh passenger for
    each input in turn. *)
Definition add_inputs (calculator : TransportFareCalculator)
  (inputs : list (string * Z * float)) : TransportFareCalculator :=
  fold_left (fun self '(n, a, d) => add_passenger self (Passenger_init n a d))
            inputs calculator.

(** How a run of [main] that returns ends: with the notice of an
    empty run, or with the summary of the processed batch. *)
Definition closing_lines (inputs : list (string * Z * float)) : list output :=
  match inputs with
  | [] => [Printed (newline ++ "No hay pasajeros para procesar. Fin del programa.")%string]
  | _ :: _ =>
      map Printed
        (summary_lines format_fixed str_int alg
           (process_all (fresh_batch BASE_RATE_PER_KM inputs)))
  end.

(** The screen after a validator has turned down [skipped] and
    prompts again. *)
Definition retries (prompt : string) (complaint : string -> string)
  (skipped : list string) : list output :=
  flat_map (fun line => [Prompted prompt; Printed (complaint line)]) skipped
  ++ [Prompted prompt].

End Builtins.

(** Toy conversions, enough to run the program on a sample session. *)
Definition sample_parse_int (s : string) : option Z :=
  if String.eqb s "2" then Some 2%Z
  else if String.eqb s "0" then Some 0%Z
  else if String.eqb s "-1" then Some (-1)%Z
  else if String.eqb s "10" then Some 10%Z
  else if String.eqb s "65" then Some 65%Z
  else None.

Definition sample_parse_float (s : string) : option float :=
  if String.eqb s "20" then Some 20%float
  else if String.eqb s "10" then Some 10%float
  else if String.eqb s "-3" then Some (-3)%float
  else None.

Definition sample_str_int (z : Z) : string :=
  if (z =? 1)%Z then "1" else if (z =? 2)%Z then "2"
  else if (z =? 10)%Z then "10" else if (z =? 65)%Z then "65" else "?".

Definition sample_format (prec : nat) (grouped : bool) (x : float) : string := "#".

Definition sample_script : list (string * string * string) :=
  [("Ana", "10", "20"); ("Luis", "65", "10")].

Definition sample_inputs : list (string * Z * float) :=
  [("Ana", 10%Z, 20%float); ("Luis", 65%Z, 10%float)].

Definition sample_main : Run unit :=
  main (fun s => s) sample_parse_int sample_parse_float sample_str_int
       sample_format LeftToRight.

End Interactive.

(* ------------------------------------------------------------------ *)
(** ** Properties of the program *)

Import Transport.
Local Open Scope float_scope.

(** *** Basic facts about [compute_fare] *)

Lemma compute_fare_snd (p : Passenger) (r : float) :
  snd (compute_fare p r) = FareRule (distance_km p) (age p) r.
Proof.
  unfold FareRule, compute_fare. cbn [Passenger_init age distance_km].
  destruct (age p <? 12)%Z; [reflexivity|].
  destruct (age p >? 60)%Z; reflexivity.
Qed.

Lemma compute_fare_fst (p : Passenger) (r : float) :
  fst (compute_fare p r) = set_final_fare p (FareRule (distance_km p) (age p) r).
Proof.
  unfold FareRule, compute_fare. cbn [Passenger_init age distance_km].
  destruct (age p <? 12)%Z; [reflexivity|].
  destruct (age p >? 60)%Z; reflexivity.
Qed.

Lemma FareRule_unfold (d : float) (a : Z) (r : float) :
  FareRule d a r =
  if (a <? 12)%Z then r * d * 0.5 else if (a >? 60)%Z then r * d * 0.7 else r * d.
Proof.
  unfold FareRule, compute_fare. cbn [Passenger_init age distance_km].
  destruct (a <? 12)%Z; [reflexivity|].
  destruct (a >? 60)%Z; reflexivity.
Qed.

Lemma process_passengers_map (r : float) (l : list Passenger) :
  process_passengers r l
  = map (fun p => set_final_fare p (FareRule (distance_km p) (age p) r)) l.
Proof.
  induction l as [| p l IH]; [reflexivity|].
  cbn [process_passengers map].
  rewrite <- compute_fare_fst, IH.
  destruct (compute_fare p r); reflexivity.
Qed.

Lemma fares_after_processing (r : float) (l : list Passenger) :
  map final_fare (process_passengers r l)
  = map (fun p => FareRule (distance_km p) (age p) r) l.
Proof.
  rewrite process_passengers_map, map_map. reflexivity.
Qed.

(** *** Sums of fresh fares *)

Lemma fresh_batch_passengers (rate : float) (inputs : list (string * Z * float)) :
  passengers (fresh_batch rate inputs)
  = map (fun '(n, a, d) => Passenger_init n a d) inputs.
Proof.
  unfold fresh_batch.
  change (map (fun '(n, a, d) => Passenger_init n a d) inputs)
    with (passengers (Calculator_init rate)
          ++ map (fun '(n, a, d) => Passenger_init n a d) inputs).
  generalize (Calculator_init rate).
  induction inputs as [| [[n a] d] inputs IH]; intros c; cbn [fold_left map].
  - symmetry. apply app_nil_r.
  - rewrite IH. cbn [add_passenger passengers]. rewrite <- app_assoc. reflexivity.
Qed.

Lemma sum_left_to_right_zeros (l : list float) :
  Forall (fun x => x = 0) l -> sum_left_to_right l = 0.
Proof.
  unfold sum_left_to_right. induction 1 as [| x l Hx _ IH]; [reflexivity|].
  subst x. exact IH.
Qed.

Lemma compensated_zeros (l : list float) :
  Forall (fun x => x = 0) l -> fold_left compensated_step l (0, 0) = (0, 0).
Proof.
  induction 1 as [| x l Hx _ IH]; [reflexivity|].
  subst x. exact IH.
Qed.

Lemma py_sum_zeros (alg : sum_algorithm) (l : list float) :
  Forall (fun x => x = 0) l -> py_sum alg l = 0.
Proof.
  intros H. destruct alg; cbn [py_sum].
  - apply sum_left_to_right_zeros, H.
  - destruct H as [| x l Hx Hl]; [reflexivity|]. subst x.
    unfold sum_compensated. change (0 + 0) with 0.
    rewrite (compensated_zeros l Hl). reflexivity.
Qed.

(** *** The fare rule *)

(** C1. The fare is the base [rate * distance_km] multiplied by [0.5]
    below age 12, by [0.7] above age 60 and by [1] otherwise; the
    boundary ages 12 and 60 pay the full base, 11 and 61 the
    discounted one.  Products are taken in the order of the source
    (base first, then the discount): binary64 multiplication is not
    associative, see [discount_product_order].  The statement needs
    no assumption on the inputs. *)
Theorem C1_fare_bands (d : float) (a : Z) (r : float) :
  FareRule d a r
  = r * d * (if (a <? 12)%Z then 0.5 else if (a >? 60)%Z then 0.7 else 1)
  /\ FareRule d 11 r = r * d * 0.5
  /\ FareRule d 61 r = r * d * 0.7
  /\ FareRule d 12 r = r * d
  /\ FareRule d 60 r = r * d.
Proof.
  rewrite !FareRule_unfold. cbn [Z.ltb Z.gtb Z.compare Pos.compare Pos.compare_cont].
  repeat split.
  destruct (a <? 12)%Z; [reflexivity|].
  destruct (a >? 60)%Z; [reflexivity|].
  symmetry. apply Binary64.mul_one_r.
Qed.

(** Taking the discount before the distance gives another float. *)
Example discount_product_order :
  FareRule 3 61 3 = 0x1.9333333333333p+2
  /\ 0.7 * 3 * 3 = 0x1.9333333333332p+2
  /\ (FareRule 3 61 3 =? 0.7 * 3 * 3) = false.
Proof. repeat split. Qed.

(** C9. [compute_fare] returns the value it stores, and leaves the
    name, the age and the distance of the passenger as they were. *)
Theorem C9_returns_stored_fare (p : Passenger) (r : float) :
  snd (compute_fare p r) = final_fare (fst (compute_fare p r))
  /\ name (fst (compute_fare p r)) = name p
  /\ age (fst (compute_fare p r)) = age p
  /\ distance_km (fst (compute_fare p r)) = distance_km p.
Proof.
  unfold compute_fare.
  destruct (age p <? 12)%Z; [| destruct (age p >? 60)%Z];
    cbn [fst snd set_final_fare name age distance_km final_fare]; auto.
Qed.

(** The result depends on the distance, the age and the rate only:
    not on the name, and not on a fare stored by an earlier call. *)
Lemma compute_fare_again (p : Passenger) (r : float) :
  compute_fare (fst (compute_fare p r)) r = compute_fare p r.
Proof.
  rewrite compute_fare_fst. unfold compute_fare.
  cbn [set_final_fare name age distance_km final_fare].
  destruct (age p <? 12)%Z; [| destruct (age p >? 60)%Z]; reflexivity.
Qed.

(** The base fare of a non-negative distance at a positive finite
    rate is not below zero. *)
Lemma base_fare_nonneg (d r : float) :
  (0 <=? d) = true -> (0 <? r) = true -> (r <? infinity) = true ->
  (0 <=? r * d) = true.
Proof.
  intros Hd Hr Hfin. rewrite Binary64.mul_comm.
  apply Binary64.mul_nonneg; assumption.
Qed.

(** C4. For a distance [>= 0] and a rate that is positive (and
    finite, as a real number is), the fare is [>= 0], whatever the
    age; and the fare is a function of its inputs: any passenger with
    that distance and age gets it, on a first call and on a repeated
    one. *)
Theorem C4_fare_nonneg (d : float) (a : Z) (r : float) :
  (0 <=? d) = true -> (0 <? r) = true -> (r <? infinity) = true ->
  (0 <=? FareRule d a r) = true
  /\ forall p : Passenger,
       distance_km p = d -> age p = a ->
       snd (compute_fare p r) = FareRule d a r
       /\ snd (compute_fare (fst (compute_fare p r)) r) = FareRule d a r.
Proof.
  intros Hd Hr Hfin.
  pose proof (base_fare_nonneg d r Hd Hr Hfin) as Hb.
  split.
  - rewrite FareRule_unfold.
    destruct (a <? 12)%Z; [| destruct (a >? 60)%Z].
    + apply Binary64.mul_nonneg; [reflexivity | reflexivity | exact Hb].
    + apply Binary64.mul_nonneg; [reflexivity | reflexivity | exact Hb].
    + exact Hb.
  - intros p <- <-. rewrite compute_fare_again, compute_fare_snd. split; reflexivity.
Qed.

Lemma C4_fare_nonneg_witness :
  (0 <=? FareRule 20 10 500) = true
  /\ forall p : Passenger,
       distance_km p = 20 -> age p = 10%Z ->
       snd (compute_fare p 500) = FareRule 20 10 500
       /\ snd (compute_fare (fst (compute_fare p 500)) 500) = FareRule 20 10 500.
Proof. apply (C4_fare_nonneg 20 10 500); reflexivity. Defined.

(** C6. For a fixed age and a positive (finite) rate the fare is
    monotone in the distance: [0 <= d1 <= d2] gives
    [FareRule d1 <= FareRule d2]. *)
Theorem C6_monotone_in_distance (d1 d2 : float) (a : Z) (r : float) :
  (0 <=? d1) = true -> (d1 <=? d2) = true ->
  (0 <? r) = true -> (r <? infinity) = true ->
  (FareRule d1 a r <=? FareRule d2 a r) = true.
Proof.
  intros Hd1 H12 Hr Hfin.
  assert (Hb : (r * d1 <=? r * d2) = true).
  { rewrite (Binary64.mul_comm r d1), (Binary64.mul_comm r d2).
    apply Binary64.mul_le_mono_nonneg; assumption. }
  pose proof (base_fare_nonneg d1 r Hd1 Hr Hfin) as H0.
  rewrite !FareRule_unfold.
  destruct (a <? 12)%Z; [| destruct (a >? 60)%Z].
  - apply Binary64.mul_le_mono_nonneg; [reflexivity | reflexivity | exact H0 | exact Hb].
  - apply Binary64.mul_le_mono_nonneg; [reflexivity | reflexivity | exact H0 | exact Hb].
  - exact Hb.
Qed.

Lemma C6_monotone_in_distance_witness :
  (FareRule 10 65 500 <=? FareRule 20 65 500) = true.
Proof. apply (C6_monotone_in_distance 10 20 65 500); reflexivity. Defined.

(** *** Processing a batch *)

(** C2. After [process_all] the rate and the records are those of the
    batch, each record's fare field is the fare rule at its distance,
    its age and the batch's rate, and [total_collected] is the sum of
    the fare fields.  Before any [process_all], a batch built from
    fresh passengers has total [0], however many there are. *)
Theorem C2_process_all_and_total
  (alg : sum_algorithm) (self : TransportFareCalculator)
  (rate : float) (inputs : list (string * Z * float)) :
  let done := process_all self in
  base_rate_per_km done = base_rate_per_km self
  /\ passengers done
     = map (fun p => set_final_fare p
                       (FareRule (distance_km p) (age p) (base_rate_per_km self)))
           (passengers self)
  /\ Forall (fun p => final_fare p
                      = FareRule (distance_km p) (age p) (base_rate_per_km done))
            (passengers done)
  /\ total_collected alg done = py_sum alg (map final_fare (passengers done))
  /\ total_collected alg done
     = py_sum alg (map (fun p => FareRule (distance_km p) (age p) (base_rate_per_km self))
                       (passengers self))
  /\ total_collected alg (fresh_batch rate inputs) = 0
  /\ total_collected alg (Calculator_init rate) = 0.
Proof.
  cbv zeta. unfold total_collected, process_all.
  cbn [base_rate_per_km passengers].
  repeat split.
  - apply process_passengers_map.
  - rewrite process_passengers_map. apply Forall_map, Forall_forall.
    intros p _. reflexivity.
  - rewrite fares_after_processing. reflexivity.
  - apply py_sum_zeros. rewrite fresh_batch_passengers, map_map.
    apply Forall_map, Forall_forall. intros [[n a] d] _. reflexivity.
  - destruct alg; reflexivity.
Qed.

(** C3. [process_all] is idempotent: a second call in a row leaves
    the batch, hence every fare field and the total, as the first
    call left them. *)
Theorem C3_process_all_idempotent
  (alg : sum_algorithm) (self : TransportFareCalculator) :
  process_all (process_all self) = process_all self
  /\ map final_fare (passengers (process_all (process_all self)))
     = map final_fare (passengers (process_all self))
  /\ total_collected alg (process_all (process_all self))
     = total_collected alg (process_all self).
Proof.
  assert (H : process_all (process_all self) = process_all self).
  { unfold process_all. cbn [base_rate_per_km passengers]. f_equal.
    generalize (base_rate_per_km self) as r. intros r.
    induction (passengers self) as [| p l IH]; [reflexivity|].
    cbn [process_passengers].
    pose proof (compute_fare_again p r) as Hp.
    destruct (compute_fare p r) as [p' f] eqn:E. cbn [fst] in Hp.
    cbn [process_passengers]. rewrite Hp, IH. reflexivity. }
  rewrite H. repeat split.
Qed.

(** C5. At rate [500.0]: age 10 over 20 km pays [5000.0], age 65 over
    10 km pays [3500.0], age 30 over 15 km pays [7500.0], and the
    batch of these three, once processed, totals [16000.0]. *)
Theorem C5_worked_examples (alg : sum_algorithm) (n1 n2 n3 : string) :
  BASE_RATE_PER_KM = 500
  /\ FareRule 20 10 500 = 5000
  /\ FareRule 10 65 500 = 3500
  /\ FareRule 15 30 500 = 7500
  /\ map final_fare
       (passengers (process_all
          (fresh_batch 500 [(n1, 10%Z, 20); (n2, 65%Z, 10); (n3, 30%Z, 15)])))
     = [5000; 3500; 7500]
  /\ total_collected alg
       (process_all (fresh_batch 500 [(n1, 10%Z, 20); (n2, 65%Z, 10); (n3, 30%Z, 15)]))
     = 16000.
Proof.
  repeat split. destruct alg; reflexivity.
Qed.

(** *** The total and the order of the records *)

(** Each record's fare is computed from that record alone, so
    reordering the records reorders the fares. *)
Lemma process_passengers_perm (r : float) (l l' : list Passenger) :
  Permutation l l' -> Permutation (process_passengers r l) (process_passengers r l').
Proof. rewrite !process_passengers_map. apply Permutation_map. Qed.

(** The sample batch totals [1.0] in one order and the next float
    above [1.0] in the reverse order, with either summation. *)
Lemma order_records_totals (alg : sum_algorithm) :
  total_collected alg (process_all (mkCalculator 1 order_records)) = 1
  /\ total_collected alg (process_all (mkCalculator 1 (rev order_records)))
     = 0x1.0000000000001p+0.
Proof. destruct alg; split; reflexivity. Qed.

(** The same happens at the default rate with ordinary distances
    when the items are added from left to right. *)
Example senior_records_totals :
  total_collected LeftToRight
    (process_all (mkCalculator BASE_RATE_PER_KM senior_records))
  = 0x1.c6fffffffffffp+12
  /\ total_collected LeftToRight
       (process_all (mkCalculator BASE_RATE_PER_KM (rev senior_records)))
     = 7280.
Proof. split; reflexivity. Qed.

(** C7, as stated, fails: a batch and a permutation of it whose
    totals differ ([==] is false), whichever way [sum] adds. *)
Lemma C7_order_changes_total :
  Permutation order_records (rev order_records)
  /\ (total_collected LeftToRight (process_all (mkCalculator 1 order_records))
      =? total_collected LeftToRight (process_all (mkCalculator 1 (rev order_records))))
     = false
  /\ (total_collected Compensated (process_all (mkCalculator 1 order_records))
      =? total_collected Compensated (process_all (mkCalculator 1 (rev order_records))))
     = false.
Proof.
  split; [apply Permutation_rev|].
  split.
  - destruct (order_records_totals LeftToRight) as [-> ->]. reflexivity.
  - destruct (order_records_totals Compensated) as [-> ->]. reflexivity.
Qed.

(** C7, amended.  The order of the records does not matter for the
    fares: processing a permutation of a batch gives every record the
    fare it gets in the original order, so the processed sequences
    are permutations of one another and carry the same fares.  The
    total is the floating-point sum of these fares in sequence
    order. *)
Theorem C7_order_keeps_fares (rate : float) (l l' : list Passenger) :
  Permutation l l' ->
  Permutation (passengers (process_all (mkCalculator rate l)))
              (passengers (process_all (mkCalculator rate l')))
  /\ Permutation (map final_fare (passengers (process_all (mkCalculator rate l))))
                 (map final_fare (passengers (process_all (mkCalculator rate l'))))
  /\ forall alg,
       total_collected alg (process_all (mkCalculator rate l'))
       = py_sum alg (map (fun p => FareRule (distance_km p) (age p) rate) l').
Proof.
  intros H. unfold total_collected, process_all. cbn [base_rate_per_km passengers].
  pose proof (process_passengers_perm rate l l' H) as HP.
  repeat split.
  - exact HP.
  - apply Permutation_map, HP.
  - intros alg. rewrite fares_after_processing. reflexivity.
Qed.

Lemma C7_order_keeps_fares_witness :
  Permutation (passengers (process_all (mkCalculator 1 order_records)))
              (passengers (process_all (mkCalculator 1 (rev order_records))))
  /\ Permutation
       (map final_fare (passengers (process_all (mkCalculator 1 order_records))))
       (map final_fare (passengers (process_all (mkCalculator 1 (rev order_records)))))
  /\ forall alg,
       total_collected alg (process_all (mkCalculator 1 (rev order_records)))
       = py_sum alg (map (fun p => FareRule (distance_km p) (age p) 1)
                         (rev order_records)).
Proof.
  apply (C7_order_keeps_fares 1 order_records (rev order_records)).
  apply Permutation_rev.
Defined.

(** *** The summary *)

(** A loop of [print] calls appends its lines and touches nothing
    else. *)
Lemma for_each_print {A : Type} (f : A -> string) (l : list A) (w : World) :
  for_each l (fun x => print (f x)) w
  = (tt, {| this := this w; stdout := stdout w ++ map f l |}).
Proof.
  revert w. induction l as [| x l IH]; intros w; cbn [for_each map].
  - unfold ret. rewrite app_nil_r. destruct w; reflexivity.
  - unfold bind at 1. unfold print at 1. rewrite IH.
    cbn [this stdout]. rewrite <- app_assoc. reflexivity.
Qed.

Lemma bind_run {A B : Type} (m : IO A) (k : A -> IO B) (w : World) :
  bind m k w = k (fst (m w)) (snd (m w)).
Proof. unfold bind. destruct (m w); reflexivity. Qed.

(** C8. [print_summary] only reads: after the call the calculator
    (its rate, the record sequence, every record field) is what it
    was, and the console has gained the summary lines, one row per
    record in insertion order, made of the record's name, age,
    distance and fare. *)
Theorem C8_print_summary_reads_only
  (format_fixed : nat -> bool -> float -> string) (str_int : Z -> string)
  (alg : sum_algorithm) (w : World) :
  this (snd (print_summary format_fixed str_int alg w)) = this w
  /\ stdout (snd (print_summary format_fixed str_int alg w))
     = stdout w ++ summary_lines format_fixed str_int alg (this w).
Proof.
  unfold print_summary, summary_lines.
  rewrite !bind_run. cbn [print get_passengers fst snd this stdout].
  destruct (passengers (this w)) as [| p ps] eqn:E.
  - cbn [print snd this stdout]. split; [reflexivity|].
    rewrite <- !app_assoc. reflexivity.
  - rewrite !bind_run, for_each_print.
    cbn [print call_total_collected fst snd this stdout]. split; [reflexivity|].
    rewrite <- !app_assoc. reflexivity.
Qed.

(** *** Inputs outside the contract *)

(** The fare of a negative distance at a positive finite rate keeps
    the negative sign through both products. *)
Lemma fare_sign_negative (d : float) (a : Z) (r : float) :
  (d <? 0) = true -> (0 <? r) = true -> (r <? infinity) = true ->
  Binary64.SFsign (Prim2SF (FareRule d a r)) = Some true.
Proof.
  intros Hd Hr Hfin.
  assert (Hb : Binary64.SFsign (Prim2SF (r * d)) = Some true).
  { rewrite Binary64.mul_comm.
    apply Binary64.mul_sign; [assumption | assumption |].
    apply Binary64.neg_sign, Hd. }
  rewrite FareRule_unfold.
  destruct (a <? 12)%Z; [| destruct (a >? 60)%Z].
  - apply Binary64.mul_sign; [reflexivity | reflexivity | exact Hb].
  - apply Binary64.mul_sign; [reflexivity | reflexivity | exact Hb].
  - exact Hb.
Qed.

(** C10, as stated, fails in one corner: a negative distance whose
    product underflows gives the fare [-0.0], which is not below
    zero. *)
Lemma C10_underflow_gives_negative_zero :
  (- 0x1p-1074 <? 0) = true
  /\ (0 <? 1) = true
  /\ FareRule (- 0x1p-1074) 5 1 = neg_zero
  /\ (FareRule (- 0x1p-1074) 5 1 <? 0) = false.
Proof. repeat split. Qed.

(** C10, amended.  [compute_fare] and [process_all] are total and
    check nothing: for every distance and age, negative ones
    included, the fare is the band product of the source (a negative
    age is in the half-fare band), and [process_all] stores it on
    every record.  A negative distance at a positive finite rate
    gives a fare that is never above zero and carries the negative
    sign: it is below zero, or it is [-0.0] when the product
    underflows. *)
Theorem C10_no_precondition_checks
  (p : Passenger) (r : float) (self : TransportFareCalculator) :
  (exists p' f, compute_fare p r = (p', f)
                /\ f = r * distance_km p
                        * (if (age p <? 12)%Z then 0.5
                           else if (age p >? 60)%Z then 0.7 else 1))
  /\ ((age p < 0)%Z -> snd (compute_fare p r) = r * distance_km p * 0.5)
  /\ Forall (fun q => final_fare q
                      = FareRule (distance_km q) (age q) (base_rate_per_km self))
            (passengers (process_all self))
  /\ ((distance_km p <? 0) = true -> (0 <? r) = true -> (r <? infinity) = true ->
      ((snd (compute_fare p r) <? 0) = true \/ snd (compute_fare p r) = neg_zero)
      /\ (snd (compute_fare p r) <=? 0) = true
      /\ get_sign (snd (compute_fare p r)) = true).
Proof.
  pose proof (C1_bands := FareRule_unfold (distance_km p) (age p) r).
  repeat split.
  - exists (fst (compute_fare p r)), (snd (compute_fare p r)). split.
    + destruct (compute_fare p r); reflexivity.
    + rewrite compute_fare_snd, C1_bands.
      destruct (age p <? 12)%Z; [reflexivity|].
      destruct (age p >? 60)%Z; [reflexivity|].
      symmetry. apply Binary64.mul_one_r.
  - intros Ha. rewrite compute_fare_snd, C1_bands.
    destruct (Z.ltb_spec (age p) 12); [reflexivity | lia].
  - unfold process_all. cbn [passengers base_rate_per_km].
    rewrite process_passengers_map. apply Forall_map, Forall_forall.
    intros q _. reflexivity.
  - rewrite compute_fare_snd. apply Binary64.sign_neg_cases, fare_sign_negative; assumption.
  - rewrite compute_fare_snd. apply Binary64.sign_nonpos, fare_sign_negative; assumption.
  - rewrite compute_fare_snd, Binary64.get_sign_spec, fare_sign_negative by assumption.
    reflexivity.
Qed.

Lemma C10_no_precondition_checks_witness :
  (snd (compute_fare (Passenger_init "n" (-3) (-10)) 500) <? 0) = true
  \/ snd (compute_fare (Passenger_init "n" (-3) (-10)) 500) = neg_zero.
Proof.
  apply (C10_no_precondition_checks
           (Passenger_init "n" (-3) (-10)) 500 (Calculator_init 500));
    reflexivity.
Defined.

(* ------------------------------------------------------------------ *)
(** ** Further properties *)

(** *** The fare rule *)

Lemma fare_nonneg (d : float) (a : Z) (r : float) :
  (0 <=? d) = true -> (0 <? r) = true -> (r <? infinity) = true ->
  (0 <=? FareRule d a r) = true.
Proof.
  intros Hd Hr Hfin.
  pose proof (base_fare_nonneg d r Hd Hr Hfin) as Hb.
  rewrite FareRule_unfold.
  destruct (a <? 12)%Z; [| destruct (a >? 60)%Z].
  - apply Binary64.mul_nonneg; [reflexivity | reflexivity | exact Hb].
  - apply Binary64.mul_nonneg; [reflexivity | reflexivity | exact Hb].
  - exact Hb.
Qed.

(** X1. The discounts are discounts, also after rounding: for one
    distance [>= 0] and one positive finite rate, a child (age below
    12) never pays more than a senior (age above 60), who never pays
    more than a passenger of 12 to 60, who pays the base fare. *)
Theorem X1_band_order (d r : float) (child senior adult : Z) :
  (0 <=? d) = true -> (0 <? r) = true -> (r <? infinity) = true ->
  (child < 12)%Z -> (60 < senior)%Z -> (12 <= adult <= 60)%Z ->
  (FareRule d child r <=? FareRule d senior r) = true
  /\ (FareRule d senior r <=? FareRule d adult r) = true
  /\ FareRule d adult r = r * d.
Proof.
  intros Hd Hr Hfin Hc Hs Ha.
  pose proof (base_fare_nonneg d r Hd Hr Hfin) as Hb.
  rewrite !FareRule_unfold.
  destruct (Z.ltb_spec child 12); [| lia].
  destruct (Z.ltb_spec senior 12); [lia |].
  destruct (Z.ltb_spec adult 12); [lia |].
  replace (senior >? 60)%Z with true by (symmetry; apply Z.gtb_lt; lia).
  replace (adult >? 60)%Z with false
    by (symmetry; rewrite Z.gtb_ltb; apply Z.ltb_ge; lia).
  repeat split.
  - rewrite (Binary64.mul_comm (r * d) 0.5), (Binary64.mul_comm (r * d) 0.7).
    apply Binary64.mul_le_mono_pos; [reflexivity | reflexivity | reflexivity | exact Hb].
  - rewrite <- (Binary64.mul_one_r (r * d)) at 2.
    rewrite (Binary64.mul_comm (r * d) 0.7), (Binary64.mul_comm (r * d) 1).
    apply Binary64.mul_le_mono_pos; [reflexivity | reflexivity | reflexivity | exact Hb].
Qed.

Lemma X1_band_order_witness :
  (FareRule 10 8 500 <=? FareRule 10 70 500) = true
  /\ (FareRule 10 70 500 <=? FareRule 10 30 500) = true
  /\ FareRule 10 30 500 = 500 * 10.
Proof. apply (X1_band_order 10 500 8 70 30); (reflexivity || lia). Defined.

(** X2. For a fixed distance [>= 0] and a fixed age the fare is
    monotone in the rate: a higher positive finite rate never gives a
    lower fare. *)
Theorem X2_monotone_in_rate (d : float) (a : Z) (r1 r2 : float) :
  (0 <=? d) = true ->
  (0 <? r1) = true -> (r1 <=? r2) = true -> (r2 <? infinity) = true ->
  (FareRule d a r1 <=? FareRule d a r2) = true.
Proof.
  intros Hd H1 H12 H2.
  assert (Hb : (r1 * d <=? r2 * d) = true)
    by (apply Binary64.mul_le_mono_pos; assumption).
  assert (H0 : (0 <=? r1 * d) = true).
  { apply base_fare_nonneg; try assumption.
    apply (Binary64.lt_infinity_of_le r1 r2); assumption. }
  rewrite !FareRule_unfold.
  destruct (a <? 12)%Z; [| destruct (a >? 60)%Z].
  - apply Binary64.mul_le_mono_nonneg; [reflexivity | reflexivity | exact H0 | exact Hb].
  - apply Binary64.mul_le_mono_nonneg; [reflexivity | reflexivity | exact H0 | exact Hb].
  - exact Hb.
Qed.

Lemma X2_monotone_in_rate_witness :
  (FareRule 12.5 65 500 <=? FareRule 12.5 65 650) = true.
Proof. apply (X2_monotone_in_rate 12.5 65 500 650); reflexivity. Defined.

(** X3. A distance of zero ([0.0] or [-0.0]) costs nothing, at every
    age and every positive finite rate. *)
Theorem X3_zero_distance (d : float) (a : Z) (r : float) :
  (d =? 0) = true -> (0 <? r) = true -> (r <? infinity) = true ->
  (FareRule d a r =? 0) = true.
Proof.
  intros Hd Hr Hfin.
  assert (Hb : (r * d =? 0) = true).
  { rewrite Binary64.mul_comm. apply Binary64.mul_zero_l; assumption. }
  rewrite FareRule_unfold.
  destruct (a <? 12)%Z; [| destruct (a >? 60)%Z].
  - apply Binary64.mul_zero_l; [exact Hb | reflexivity | reflexivity].
  - apply Binary64.mul_zero_l; [exact Hb | reflexivity | reflexivity].
  - exact Hb.
Qed.

Lemma X3_zero_distance_witness : (FareRule 0 40 500 =? 0) = true.
Proof. apply (X3_zero_distance 0 40 500); reflexivity. Defined.

(** *** The batch *)

Lemma sum_left_to_right_nonneg (l : list float) :
  Forall (fun x => (0 <=? x) = true) l ->
  (0 <=? sum_left_to_right l) = true.
Proof.
  unfold sum_left_to_right.
  assert (G : forall acc, (0 <=? acc) = true ->
              Forall (fun x => (0 <=? x) = true) l ->
              (0 <=? fold_left add l acc) = true).
  { induction l as [| x l IH]; intros acc Hacc Hl; cbn [fold_left].
    - exact Hacc.
    - inversion Hl as [| ? ? Hx Hl']; subst.
      apply IH; [apply Binary64.add_nonneg; assumption | exact Hl']. }
  apply G. reflexivity.
Qed.

Lemma sum_nonneg_is_number (self : TransportFareCalculator) :
  (0 <? base_rate_per_km self) = true ->
  (base_rate_per_km self <? infinity) = true ->
  Forall (fun p => (0 <=? distance_km p) = true) (passengers self) ->
  is_nan (fold_left add (map final_fare (passengers (process_all self))) 0) = false.
Proof.
  intros Hr Hfin Hd.
  apply Binary64.nonneg_not_nan.
  change (fold_left add ?l 0) with (sum_left_to_right l).
  unfold process_all. cbn [passengers base_rate_per_km].
  rewrite fares_after_processing.
  apply sum_left_to_right_nonneg, Forall_map.
  revert Hd. apply Forall_impl. intros p Hp. apply fare_nonneg; assumption.
Qed.

(** X4. When [sum] adds from left to right, the total of a processed
    batch whose distances are all [>= 0], at a positive finite rate,
    is [>= 0]; in particular it is a number, not NaN. *)
Theorem X4_total_nonneg (self : TransportFareCalculator) :
  (0 <? base_rate_per_km self) = true ->
  (base_rate_per_km self <? infinity) = true ->
  Forall (fun p => (0 <=? distance_km p) = true) (passengers self) ->
  (0 <=? total_collected LeftToRight (process_all self)) = true
  /\ is_nan (total_collected LeftToRight (process_all self)) = false.
Proof.
  intros Hr Hfin Hd.
  assert (H : (0 <=? total_collected LeftToRight (process_all self)) = true).
  { unfold total_collected, process_all. cbn [passengers base_rate_per_km py_sum].
    rewrite fares_after_processing.
    apply sum_left_to_right_nonneg, Forall_map.
    revert Hd. apply Forall_impl. intros p Hp. apply fare_nonneg; assumption. }
  split; [exact H | apply Binary64.nonneg_not_nan, H].
Qed.

Lemma X4_total_nonneg_witness :
  (0 <=? total_collected LeftToRight
           (process_all (mkCalculator BASE_RATE_PER_KM senior_records))) = true
  /\ is_nan (total_collected LeftToRight
               (process_all (mkCalculator BASE_RATE_PER_KM senior_records))) = false.
Proof.
  apply (X4_total_nonneg (mkCalculator BASE_RATE_PER_KM senior_records));
    [reflexivity | reflexivity |].
  repeat constructor.
Defined.

(** X5. Processing distributes over [add_passenger]: processing a
    batch to which a passenger was added is adding the processed
    passenger to the processed batch; the fares already there are
    the same. *)
Theorem X5_process_after_add (self : TransportFareCalculator) (p : Passenger) :
  process_all (add_passenger self p)
  = add_passenger (process_all self) (fst (compute_fare p (base_rate_per_km self))).
Proof.
  unfold process_all, add_passenger. cbn [base_rate_per_km passengers]. f_equal.
  rewrite !process_passengers_map, map_app, compute_fare_fst. reflexivity.
Qed.

(** X6. [process_all] never reads a stored fare: two batches with the
    same rate whose records agree on name, age and distance are the
    same batch after processing, whatever fares they held before. *)
Theorem X6_process_forgets_old_fares (rate : float) (l1 l2 : list Passenger) :
  map (fun p => (name p, age p, distance_km p)) l1
  = map (fun p => (name p, age p, distance_km p)) l2 ->
  process_all (mkCalculator rate l1) = process_all (mkCalculator rate l2).
Proof.
  intros H. unfold process_all. cbn [base_rate_per_km passengers]. f_equal.
  rewrite !process_passengers_map.
  revert l2 H. induction l1 as [| p1 l1 IH]; intros [| p2 l2] H;
    try discriminate H; [reflexivity|].
  cbn [map] in *. injection H as Hn Ha Hd Hl.
  rewrite (IH l2 Hl). f_equal.
  unfold set_final_fare. rewrite Hn, Ha, Hd. reflexivity.
Qed.

Lemma X6_process_forgets_old_fares_witness :
  process_all (mkCalculator 500 [mkPassenger "a" 30 15 0])
  = process_all (mkCalculator 500 [mkPassenger "a" 30 15 99]).
Proof.
  apply (X6_process_forgets_old_fares 500
           [mkPassenger "a" 30 15 0] [mkPassenger "a" 30 15 99]).
  reflexivity.
Defined.

(** X13. A passenger added after [process_all] counts for nothing
    until [process_all] runs again: the stored fares are the old ones
    followed by the newcomer's [0.0], and (for a batch with distances
    [>= 0] at a positive finite rate, [sum] adding from left to
    right) the total is still equal to the old total, whatever the
    newcomer's distance. *)
Theorem X13_added_passenger_not_counted
  (self : TransportFareCalculator) (n : string) (a : Z) (d : float) :
  (0 <? base_rate_per_km self) = true ->
  (base_rate_per_km self <? infinity) = true ->
  Forall (fun p => (0 <=? distance_km p) = true) (passengers self) ->
  let late := add_passenger (process_all self) (Passenger_init n a d) in
  map final_fare (passengers late)
  = map final_fare (passengers (process_all self)) ++ [0]
  /\ (total_collected LeftToRight late
      =? total_collected LeftToRight (process_all self)) = true.
Proof.
  intros Hr Hfin Hd late. subst late.
  assert (E : map final_fare
                (passengers (add_passenger (process_all self) (Passenger_init n a d)))
              = map final_fare (passengers (process_all self)) ++ [0]).
  { unfold add_passenger. cbn [passengers]. rewrite map_app. reflexivity. }
  split; [exact E|].
  unfold total_collected at 1. rewrite E.
  cbn [py_sum]. unfold sum_left_to_right. rewrite fold_left_app. cbn [fold_left].
  apply Binary64.add_zero_r_eqb.
  apply (sum_nonneg_is_number self Hr Hfin Hd).
Qed.

Lemma X13_added_passenger_not_counted_witness :
  map final_fare
    (passengers (add_passenger
                   (process_all (mkCalculator BASE_RATE_PER_KM senior_records))
                   (Passenger_init EmptyString 30 100)))
  = map final_fare
      (passengers (process_all (mkCalculator BASE_RATE_PER_KM senior_records))) ++ [0]
  /\ (total_collected LeftToRight
        (add_passenger (process_all (mkCalculator BASE_RATE_PER_KM senior_records))
                       (Passenger_init EmptyString 30 100))
      =? total_collected LeftToRight
           (process_all (mkCalculator BASE_RATE_PER_KM senior_records))) = true.
Proof.
  apply (X13_added_passenger_not_counted
           (mkCalculator BASE_RATE_PER_KM senior_records) EmptyString 30 100);
    [reflexivity | reflexivity |].
  repeat constructor.
Defined.

(** *** The layout of the summary *)







(* ------------------------------------------------------------------ *)
(** ** The interactive part *)

Import Interactive.

Section InteractiveFacts.
Variable strip : string -> string.
Variable parse_int : string -> option Z.
Variable parse_float : string -> option float.
Variable str_int : Z -> string.
Variable format_fixed : nat -> bool -> float -> string.
Variable alg : sum_algorithm.

Lemma retries_cons (prompt : string) (complaint : string -> string)
  (scr : list output) (line : string) (skipped : list string) :
  (scr ++ [Prompted prompt] ++ [Printed (complaint line)])
    ++ retries prompt complaint skipped
  = scr ++ retries prompt complaint (line :: skipped).
Proof. unfold retries. cbn [flat_map]. rewrite <- !app_assoc. reflexivity. Qed.

(** *** The validators *)

Lemma get_positive_int_loop_spec (prompt : string) (lines : list string) :
  forall scr,
  match get_positive_int_loop strip parse_int prompt lines scr with
  | (Returned value, c') =>
      exists skipped line,
        lines = skipped ++ line :: stdin c'
        /\ Forall (fun l => int_rejected strip parse_int l = true) skipped
        /\ parse_int (strip line) = Some value
        /\ (0 <= value)%Z
        /\ screen c' = scr ++ retries prompt (int_complaint strip parse_int) skipped
  | (EOFError, c') =>
      Forall (fun l => int_rejected strip parse_int l = true) lines
      /\ stdin c' = []
      /\ screen c' = scr ++ retries prompt (int_complaint strip parse_int) lines
  end.
Proof.
  induction lines as [| line rest IH]; intros scr; cbn [get_positive_int_loop].
  - repeat split. constructor.
  - assert (Step : forall msg,
              int_rejected strip parse_int line = true ->
              int_complaint strip parse_int line = msg ->
              match get_positive_int_loop strip parse_int prompt rest
                      ((scr ++ [Prompted prompt]) ++ [Printed msg]) with
              | (Returned value, c') =>
                  exists skipped line0,
                    line :: rest = skipped ++ line0 :: stdin c'
                    /\ Forall (fun l => int_rejected strip parse_int l = true) skipped
                    /\ parse_int (strip line0) = Some value
                    /\ (0 <= value)%Z
                    /\ screen c'
                       = scr ++ retries prompt (int_complaint strip parse_int) skipped
              | (EOFError, c') =>
                  Forall (fun l => int_rejected strip parse_int l = true) (line :: rest)
                  /\ stdin c' = []
                  /\ screen c'
                     = scr ++ retries prompt (int_complaint strip parse_int) (line :: rest)
              end).
    { intros msg Hrej Hmsg.
      specialize (IH ((scr ++ [Prompted prompt]) ++ [Printed msg])).
      destruct (get_positive_int_loop strip parse_int prompt rest _) as [[value |] c'].
      - destruct IH as (skipped & line0 & E & F & P & V & S).
        exists (line :: skipped), line0. rewrite E at 1.
        repeat split; try assumption; [constructor; assumption|].
        rewrite S, <- retries_cons, Hmsg, <- !app_assoc. reflexivity.
      - destruct IH as (F & E & S). repeat split; try assumption.
        + constructor; assumption.
        + rewrite S, <- retries_cons, Hmsg, <- !app_assoc. reflexivity. }
    unfold int_rejected, int_complaint in Step.
    destruct (parse_int (strip line)) as [value |] eqn:P.
    + destruct (Z.geb_spec value 0) as [Hv | Hv].
      * exists [], line. cbn [stdin screen app].
        repeat split; try assumption; try constructor; lia.
      * apply Step; reflexivity.
    + apply Step; reflexivity.
Qed.

Lemma get_non_negative_float_loop_spec (prompt : string) (lines : list string) :
  forall scr,
  match get_non_negative_float_loop strip parse_float prompt lines scr with
  | (Returned value, c') =>
      exists skipped line,
        lines = skipped ++ line :: stdin c'
        /\ Forall (fun l => float_rejected strip parse_float l = true) skipped
        /\ parse_float (strip line) = Some value
        /\ (0 <=? value)%float = true
        /\ screen c' = scr ++ retries prompt (float_complaint strip parse_float) skipped
  | (EOFError, c') =>
      Forall (fun l => float_rejected strip parse_float l = true) lines
      /\ stdin c' = []
      /\ screen c' = scr ++ retries prompt (float_complaint strip parse_float) lines
  end.
Proof.
  induction lines as [| line rest IH]; intros scr; cbn [get_non_negative_float_loop].
  - repeat split. constructor.
  - assert (Step : forall msg,
              float_rejected strip parse_float line = true ->
              float_complaint strip parse_float line = msg ->
              match get_non_negative_float_loop strip parse_float prompt rest
                      ((scr ++ [Prompted prompt]) ++ [Printed msg]) with
              | (Returned value, c') =>
                  exists skipped line0,
                    line :: rest = skipped ++ line0 :: stdin c'
                    /\ Forall (fun l => float_rejected strip parse_float l = true) skipped
                    /\ parse_float (strip line0) = Some value
                    /\ (0 <=? value)%float = true
                    /\ screen c'
                       = scr ++ retries prompt (float_complaint strip parse_float) skipped
              | (EOFError, c') =>
                  Forall (fun l => float_rejected strip parse_float l = true) (line :: rest)
                  /\ stdin c' = []
                  /\ screen c'
                     = scr ++ retries prompt (float_complaint strip parse_float)
                                (line :: rest)
              end).
    { intros msg Hrej Hmsg.
      specialize (IH ((scr ++ [Prompted prompt]) ++ [Printed msg])).
      destruct (get_non_negative_float_loop strip parse_float prompt rest _)
        as [[value |] c'].
      - destruct IH as (skipped & line0 & E & F & P & V & S).
        exists (line :: skipped), line0. rewrite E at 1.
        repeat split; try assumption; [constructor; assumption|].
        rewrite S, <- retries_cons, Hmsg, <- !app_assoc. reflexivity.
      - destruct IH as (F & E & S). repeat split; try assumption.
        + constructor; assumption.
        + rewrite S, <- retries_cons, Hmsg, <- !app_assoc. reflexivity. }
    unfold float_rejected, float_complaint in Step.
    destruct (parse_float (strip line)) as [value |] eqn:P.
    + destruct (0 <=? value)%float eqn:Hv.
      * exists [], line. cbn [stdin screen app].
        repeat split; try assumption; constructor.
      * apply Step; reflexivity.
    + apply Step; reflexivity.
Qed.

Lemma get_non_empty_string_loop_spec (prompt : string) (lines : list string) :
  forall scr,
  match get_non_empty_string_loop strip prompt lines scr with
  | (Returned value, c') =>
      exists skipped line,
        lines = skipped ++ line :: stdin c'
        /\ Forall (fun l => name_rejected strip l = true) skipped
        /\ value = strip line
        /\ value <> EmptyString
        /\ screen c' = scr ++ retries prompt name_complaint skipped
  | (EOFError, c') =>
      Forall (fun l => name_rejected strip l = true) lines
      /\ stdin c' = []
      /\ screen c' = scr ++ retries prompt name_complaint lines
  end.
Proof.
  induction lines as [| line rest IH]; intros scr; cbn [get_non_empty_string_loop].
  - repeat split. constructor.
  - destruct (truthy (strip line)) eqn:T.
    + exists [], line. cbn [stdin screen app]. repeat split.
      * constructor.
      * intros E. rewrite E in T. discriminate T.
    + assert (Hrej : name_rejected strip line = true)
        by (unfold name_rejected; rewrite T; reflexivity).
      specialize (IH ((scr ++ [Prompted prompt])
                        ++ [Printed (name_complaint line)])).
      unfold name_complaint at 1 in IH.
      destruct (get_non_empty_string_loop strip prompt rest _) as [[value |] c'].
      * destruct IH as (skipped & line0 & E & F & P & V & S).
        exists (line :: skipped), line0. rewrite E at 1.
        repeat split; try assumption; [constructor; assumption|].
        rewrite S, <- retries_cons, <- !app_assoc. reflexivity.
      * destruct IH as (F & E & S). repeat split; try assumption.
        -- constructor; assumption.
        -- rewrite S, <- retries_cons, <- !app_assoc. reflexivity.
Qed.

(** X8. [get_positive_int] answers with the integer of the first line
    that parses to an integer [>= 0], never with a negative one; it
    leaves the lines after that one unread, and has written the
    prompt once per line read and one complaint per line turned
    down.  When no line is acceptable it reads them all and ends in
    [EOFError]. *)
Theorem X8_get_positive_int_spec (prompt : string) (c : Console) :
  match get_positive_int strip parse_int prompt c with
  | (Returned value, c') =>
      (0 <= value)%Z
      /\ exists skipped line,
           stdin c = skipped ++ line :: stdin c'
           /\ Forall (fun l => int_rejected strip parse_int l = true) skipped
           /\ parse_int (strip line) = Some value
           /\ screen c'
              = screen c ++ retries prompt (int_complaint strip parse_int) skipped
  | (EOFError, c') =>
      Forall (fun l => int_rejected strip parse_int l = true) (stdin c)
      /\ stdin c' = []
      /\ screen c'
         = screen c ++ retries prompt (int_complaint strip parse_int) (stdin c)
  end.
Proof.
  unfold get_positive_int.
  pose proof (get_positive_int_loop_spec prompt (stdin c) (screen c)) as H.
  destruct (get_positive_int_loop strip parse_int prompt (stdin c) (screen c))
    as [[value |] c']; [| exact H].
  destruct H as (skipped & line & E & F & P & V & S).
  split; [exact V|]. exists skipped, line. auto.
Qed.

(** X9. [get_non_negative_float] answers with the float of the first
    line that parses to a float [>= 0.0]: the answer is never NaN and
    never below zero (an infinite value passes the test).  When no
    line is acceptable it ends in [EOFError]. *)
Theorem X9_get_non_negative_float_spec (prompt : string) (c : Console) :
  match get_non_negative_float strip parse_float prompt c with
  | (Returned value, c') =>
      (0 <=? value)%float = true
      /\ is_nan value = false
      /\ (value <? 0)%float = false
      /\ exists skipped line,
           stdin c = skipped ++ line :: stdin c'
           /\ Forall (fun l => float_rejected strip parse_float l = true) skipped
           /\ parse_float (strip line) = Some value
           /\ screen c'
              = screen c ++ retries prompt (float_complaint strip parse_float) skipped
  | (EOFError, c') =>
      Forall (fun l => float_rejected strip parse_float l = true) (stdin c)
      /\ stdin c' = []
      /\ screen c'
         = screen c ++ retries prompt (float_complaint strip parse_float) (stdin c)
  end.
Proof.
  unfold get_non_negative_float.
  pose proof (get_non_negative_float_loop_spec prompt (stdin c) (screen c)) as H.
  destruct (get_non_negative_float_loop strip parse_float prompt (stdin c) (screen c))
    as [[value |] c']; [| exact H].
  destruct H as (skipped & line & E & F & P & V & S).
  destruct (Binary64.nonneg_not_nan value V) as [Hnan Hlt].
  repeat split; try assumption. exists skipped, line. auto.
Qed.

(** X10. [get_non_empty_string] answers with the stripped text of
    the first line that is not blank: the answer is never empty.
    When every line is blank it ends in [EOFError]. *)
Theorem X10_get_non_empty_string_spec (prompt : string) (c : Console) :
  match get_non_empty_string strip prompt c with
  | (Returned value, c') =>
      value <> EmptyString
      /\ exists skipped line,
           stdin c = skipped ++ line :: stdin c'
           /\ Forall (fun l => name_rejected strip l = true) skipped
           /\ value = strip line
           /\ screen c' = screen c ++ retries prompt name_complaint skipped
  | (EOFError, c') =>
      Forall (fun l => name_rejected strip l = true) (stdin c)
      /\ stdin c' = []
      /\ screen c' = screen c ++ retries prompt name_complaint (stdin c)
  end.
Proof.
  unfold get_non_empty_string.
  pose proof (get_non_empty_string_loop_spec prompt (stdin c) (screen c)) as H.
  destruct (get_non_empty_string_loop strip prompt (stdin c) (screen c))
    as [[value |] c']; [| exact H].
  destruct H as (skipped & line & E & F & P & V & S).
  split; [exact V|]. exists skipped, line. auto.
Qed.

(** *** [main] *)

Lemma fresh_batch_rate (rate : float) (inputs : list (string * Z * float)) :
  base_rate_per_km (fresh_batch rate inputs) = rate.
Proof.
  unfold fresh_batch.
  change rate with (base_rate_per_km (Calculator_init rate)) at 2.
  generalize (Calculator_init rate).
  induction inputs as [| [[n a] d] inputs IH]; intros c; cbn [fold_left].
  - reflexivity.
  - rewrite IH. reflexivity.
Qed.

(** [print_summary] run on an empty console leaves the calculator
    and writes the summary lines. *)
Lemma print_summary_run (w : World) :
  snd (print_summary format_fixed str_int alg w)
  = {| this := this w;
       stdout := stdout w ++ summary_lines format_fixed str_int alg (this w) |}.
Proof.
  unfold print_summary, summary_lines.
  rewrite !bind_run.
  cbn [Transport.print get_passengers fst snd this stdout].
  destruct (passengers (this w)) as [| p ps] eqn:E.
  - cbn [Transport.print snd this stdout]. rewrite <- !app_assoc. reflexivity.
  - rewrite !bind_run, for_each_print.
    cbn [Transport.print call_total_collected fst snd this stdout].
    rewrite <- !app_assoc. reflexivity.
Qed.

Ltac step_validator :=
  let H := fresh "H" in
  match goal with
  | |- context [get_non_empty_string ?s ?p ?c] =>
      unfold get_non_empty_string;
      pose proof (get_non_empty_string_loop_spec p (stdin c) (screen c)) as H;
      destruct (get_non_empty_string_loop s p (stdin c) (screen c)) as [[? |] ?]
  | |- context [get_positive_int ?s ?pi ?p ?c] =>
      unfold get_positive_int;
      pose proof (get_positive_int_loop_spec p (stdin c) (screen c)) as H;
      destruct (get_positive_int_loop s pi p (stdin c) (screen c)) as [[? |] ?]
  | |- context [get_non_negative_float ?s ?pf ?p ?c] =>
      unfold get_non_negative_float;
      pose proof (get_non_negative_float_loop_spec p (stdin c) (screen c)) as H;
      destruct (get_non_negative_float_loop s pf p (stdin c) (screen c)) as [[? |] ?]
  end.

(** The reading loop stores validated passengers only, one per turn,
    and fails only by running out of input. *)
Lemma read_passengers_spec (n : nat) :
  forall (i : Z) (calculator : TransportFareCalculator) (c : Console),
  match read_passengers strip parse_int parse_float str_int n i calculator c with
  | (Returned calculator', c') =>
      exists inputs,
        List.length inputs = n /\ Forall valid_input inputs
        /\ calculator' = add_inputs calculator inputs
  | (EOFError, c') => stdin c' = []
  end.
Proof.
  induction n as [| n IH]; intros i calculator c; cbn [read_passengers].
  - exists []. repeat split. constructor.
  - unfold bind at 1. unfold Interactive.print at 1.
    unfold bind at 1. step_validator; [| apply H].
    destruct H as (sk1 & l1 & _ & _ & Hnm & Hne & _).
    unfold bind at 1. step_validator; [| apply H].
    destruct H as (sk2 & l2 & _ & _ & _ & Hage & _).
    unfold bind at 1. step_validator; [| apply H].
    destruct H as (sk3 & l3 & _ & _ & _ & Hd & _).
    match goal with
    | |- context [read_passengers _ _ _ _ n ?i' ?calc' ?c'] =>
        specialize (IH i' calc' c');
        destruct (read_passengers strip parse_int parse_float str_int n i' calc' c')
          as [[calculator' |] c'']
    end; [| exact IH].
    destruct IH as (inputs & Hlen & Hall & Hcalc).
    match goal with
    | _ : ?nm <> EmptyString, _ : (0 <= ?a)%Z, _ : (0 <=? ?d)%float = true |- _ =>
        exists ((nm, a, d) :: inputs)
    end.
    repeat split.
    + cbn [List.length]. rewrite Hlen. reflexivity.
    + constructor; [| exact Hall]. cbn. auto.
    + exact Hcalc.
Qed.

(** X11. Whatever is typed, [main] ends in one of three ways.  It
    returns after the notice that there are no passengers; or it
    returns after printing the summary of a processed batch at the
    default rate, and then every stored passenger has a non-empty
    name, an age [>= 0] and a distance [>= 0.0], and every fare shown
    is the fare rule's value and is [>= 0]; or the input ran out and
    it ends in [EOFError]. *)
Theorem X11_main_outcomes (c : Console) :
  match main strip parse_int parse_float str_int format_fixed alg c with
  | (Returned _, c') =>
      exists inputs scr,
        Forall valid_input inputs
        /\ screen c' = scr ++ closing_lines str_int format_fixed alg inputs
        /\ Forall (fun p => final_fare p
                            = FareRule (distance_km p) (age p) BASE_RATE_PER_KM
                            /\ (0 <=? final_fare p)%float = true)
                  (passengers (process_all (fresh_batch BASE_RATE_PER_KM inputs)))
  | (EOFError, c') => stdin c' = []
  end.
Proof.
  unfold main.
  unfold bind at 1. unfold Interactive.print at 1.
  unfold bind at 1. unfold Interactive.print at 1.
  unfold bind at 1. unfold Interactive.print at 1.
  unfold bind at 1. step_validator; [| apply H].
  destruct H as (sk & l & _ & _ & _ & Hn & _).
  match goal with
  | |- context [(?v =? 0)%Z] => destruct (Z.eqb_spec v 0) as [-> | Hnz]
  end.
  - exists []. eexists. unfold Interactive.print. cbn [screen closing_lines].
    repeat split; constructor.
  - unfold bind.
    match goal with
    | |- context [read_passengers _ _ _ _ ?n ?i ?calc ?c1] =>
        pose proof (read_passengers_spec n i calc c1) as HR;
        destruct (read_passengers strip parse_int parse_float str_int n i calc c1)
          as [[calculator |] c2]
    end; [| exact HR].
    destruct HR as (inputs & Hlen & Hall & ->).
    change (add_inputs (Calculator_init BASE_RATE_PER_KM) inputs)
      with (fresh_batch BASE_RATE_PER_KM inputs).
    unfold call_print_summary. rewrite print_summary_run. cbn [screen this stdout app].
    exists inputs, (screen c2).
    assert (Hne : inputs <> []) by (intros ->; cbn in Hlen; lia).
    repeat split.
    + exact Hall.
    + destruct inputs; [contradiction | reflexivity].
    + unfold process_all. cbn [passengers base_rate_per_km].
      rewrite fresh_batch_passengers, fresh_batch_rate, process_passengers_map, map_map.
      apply Forall_map. revert Hall. apply Forall_impl.
      intros [[nm ag] dk] (_ & _ & Hd).
      cbn [set_final_fare Passenger_init final_fare distance_km age].
      split; [reflexivity|].
      apply fare_nonneg; [exact Hd | reflexivity | reflexivity].
Qed.

(** On lines that are all acceptable the reading loop takes three
    lines per passenger and stores what they say. *)
Lemma read_passengers_script
  (script : list (string * string * string)) (inputs : list (string * Z * float)) :
  Forall2 (scripted strip parse_int parse_float) script inputs ->
  forall (i : Z) (calculator : TransportFareCalculator)
         (rest : list string) (scr : list output),
  exists scr',
    read_passengers strip parse_int parse_float str_int (List.length inputs) i calculator
      {| stdin := script_lines script ++ rest; screen := scr |}
    = (Returned (add_inputs calculator inputs), {| stdin := rest; screen := scr' |}).
Proof.
  induction 1 as [| [[l1 l2] l3] [[nm ag] dk] script inputs Hs _ IH];
    intros i calculator rest scr.
  - eexists. reflexivity.
  - destruct Hs as (Ht & -> & Hpi & Hag & Hpf & Hdk).
    cbn [List.length read_passengers script_lines flat_map app].
    unfold bind, Interactive.print, get_non_empty_string, get_positive_int,
      get_non_negative_float.
    cbn [stdin screen get_non_empty_string_loop get_positive_int_loop
         get_non_negative_float_loop].
    rewrite Ht. cbn [stdin screen get_positive_int_loop]. rewrite Hpi.
    replace (ag >=? 0)%Z with true by (symmetry; apply Z.geb_le; exact Hag).
    cbn [stdin screen get_non_negative_float_loop]. rewrite Hpf, Hdk.
    cbn [stdin screen].
    apply IH.
Qed.

(** X12. A session without mistakes runs to the end: when the first
    line gives the number of passengers and each passenger's three
    lines are acceptable, [main] returns, has read exactly those
    [1 + 3 * N] lines, and ends the screen with the notice of an
    empty run ([N = 0]) or with the summary of the processed batch of
    the [N] passengers typed, in the order typed. *)
Theorem X12_main_clean_session
  (count_line : string) (script : list (string * string * string))
  (inputs : list (string * Z * float)) (rest : list string) (scr : list output) :
  parse_int (strip count_line) = Some (Z.of_nat (List.length inputs)) ->
  Forall2 (scripted strip parse_int parse_float) script inputs ->
  exists scr',
    main strip parse_int parse_float str_int format_fixed alg
      {| stdin := count_line :: script_lines script ++ rest; screen := scr |}
    = (Returned tt,
       {| stdin := rest;
          screen := scr' ++ closing_lines str_int format_fixed alg inputs |}).
Proof.
  intros Hcount Hscript.
  unfold main, bind, Interactive.print, get_positive_int.
  cbn [stdin screen get_positive_int_loop]. rewrite Hcount.
  replace (Z.of_nat (List.length inputs) >=? 0)%Z with true
    by (symmetry; apply Z.geb_le; lia).
  cbn [stdin screen].
  destruct inputs as [| input inputs].
  - inversion Hscript; subst. cbn [List.length Z.of_nat Z.eqb script_lines flat_map app
                                  closing_lines stdin screen].
    eexists. reflexivity.
  - replace (Z.of_nat (List.length (input :: inputs)) =? 0)%Z with false
      by (symmetry; apply Z.eqb_neq; cbn [List.length]; lia).
    rewrite Nat2Z.id.
    destruct (read_passengers_script script (input :: inputs) Hscript 1
                (Calculator_init BASE_RATE_PER_KM) rest
                (((((scr ++ [Printed (replicate 60 "=")])
                    ++ [Printed (center "TRANSPORT FARE SIMULATOR" 60)])
                   ++ [Printed (replicate 60 "=")])
                  ++ [Prompted "Ingrese la cantidad de pasajeros a procesar (N): "])))
      as (scr1 & E).
    rewrite E. unfold call_print_summary. rewrite print_summary_run.
    cbn [stdin screen this stdout app closing_lines].
    exists scr1. reflexivity.
Qed.

End InteractiveFacts.

Lemma X12_main_clean_session_witness :
  exists scr',
    sample_main
      {| stdin := String "2" EmptyString :: script_lines sample_script ++ [EmptyString];
         screen := [] |}
    = (Returned tt,
       {| stdin := [EmptyString];
          screen := scr' ++ closing_lines sample_str_int sample_format LeftToRight
                              sample_inputs |}).
Proof.
  apply (X12_main_clean_session (fun s => s) sample_parse_int sample_parse_float
           sample_str_int sample_format LeftToRight (String "2" EmptyString)
           sample_script sample_inputs [EmptyString] []).
  - reflexivity.
  - repeat constructor; cbn; lia.
Defined.
